(** * stonks-data: incremental minute-bar downloader (src/main.py)

    A shallow embedding of [main.py] and the properties of its
    configuration parser, Timestamp Resolver, Reconciler, Segment Writer
    and entry point.

    Conventions of the embedding:
    - a Python [str] is a [string]; its characters are code points below 256;
    - a pandas [Timestamp] is its [i8] value: nanoseconds since the Unix
      epoch, in UTC, as a [Z];
    - a Python [dict] is an association list in insertion order;
    - a directory is a finite map from file names to file contents;
    - calls that can raise return a sum type and the handlers of the source
      are written out. *)

From Stdlib Require Import ZArith Lia Ascii String List Bool.
From Stdlib Require Import DecimalString DecimalNat.
From stdpp Require Import base option list sorting gmap strings.

Local Open Scope Z_scope.

(** ** Configuration constants (main.py, lines 9-14) *)

Definition CONFIG_FILE : string := "tickers.txt".
Definition BASE_DOWNLOAD_DIR : string := "data".
Definition MAX_FILE_SIZE_MB : Z := 50.
Definition MAX_FILE_SIZE_BYTES : Z := MAX_FILE_SIZE_MB * 1024 * 1024.
Definition DOWNLOAD_PERIOD_DAYS : Z := 7.

(** ** Python string primitives used by the source *)

Module Py.

(** [str.isspace] on one character, for code points below 256. *)
Definition isspace (c : ascii) : bool :=
  let n := N_of_ascii c in
  ((9 <=? n) && (n <=? 13) || (28 <=? n) && (n <=? 32)
   || (n =? 133) || (n =? 160))%N.

Fixpoint lstrip (s : string) : string :=
  match s with
  | EmptyString => EmptyString
  | String c s' => if isspace c then lstrip s' else s
  end.

Fixpoint rstrip (s : string) : string :=
  match s with
  | EmptyString => EmptyString
  | String c s' =>
      match rstrip s' with
      | EmptyString => if isspace c then EmptyString else String c EmptyString
      | r => String c r
      end
  end.

(** [s.strip()] *)
Definition strip (s : string) : string := rstrip (lstrip s).

(** [s.startswith(c)] for a one-character prefix. *)
Definition startswith (c : ascii) (s : string) : bool :=
  match s with
  | String c' _ => bool_decide (c' = c)
  | EmptyString => false
  end.

(** [s.split(sep, 1)]: one part when [sep] does not occur, else the text
    before the first [sep] and everything after it. *)
Fixpoint split1 (sep : ascii) (s : string) : string * option string :=
  match s with
  | EmptyString => (EmptyString, None)
  | String c s' =>
      if bool_decide (c = sep) then (EmptyString, Some s')
      else let '(a, b) := split1 sep s' in (String c a, b)
  end.

(** [s.split(sep)]: always at least one part. *)
Fixpoint split (sep : ascii) (s : string) : list string :=
  match s with
  | EmptyString => [EmptyString]
  | String c s' =>
      if bool_decide (c = sep) then EmptyString :: split sep s'
      else match split sep s' with
           | p :: ps => String c p :: ps
           | [] => [String c EmptyString]
           end
  end.

(** [os.path.join(a, b)] on POSIX. *)
Fixpoint endswith_slash (s : string) : bool :=
  match s with
  | EmptyString => false
  | String c EmptyString => bool_decide (c = "/"%char)
  | String _ s' => endswith_slash s'
  end.

Definition path_join (a b : string) : string :=
  if startswith "/" b then b
  else if bool_decide (a = EmptyString) || endswith_slash a then a +:+ b
  else a +:+ "/" +:+ b.

(** A [dict] with string keys: insertion order, one binding per key;
    assigning to a present key keeps its position. *)
Abbreviation dict V := (list (string * V)) (only parsing).

Fixpoint dict_set {V} (k : string) (v : V) (d : dict V) : dict V :=
  match d with
  | [] => [(k, v)]
  | (k', v') :: d' =>
      if bool_decide (k' = k) then (k, v) :: d'
      else (k', v') :: dict_set k v d'
  end.

Fixpoint dict_get {V} (k : string) (d : dict V) : option V :=
  match d with
  | [] => None
  | (k', v') :: d' => if bool_decide (k' = k) then Some v' else dict_get k d'
  end.

End Py.

(** ** parse_config (main.py, lines 18-36) *)

(** What [os.path.exists], [open] and the iteration over the file find
    at the configuration path.  Neither [open] nor the [for] loop is inside
    a [try]: an [OSError] of [open] and a [UnicodeDecodeError] raised while
    the lines are read both escape [parse_config]. *)
Inductive config_file :=
| CfgMissing                          (* os.path.exists is False *)
| CfgUnreadable                       (* exists; open() or reading a line raises *)
| CfgLines (lines : list string).     (* opens, and these are all its lines *)

(** A call either returns or lets an exception escape. *)
Inductive outcome (A : Type) :=
| Returned (a : A)
| Raised.
Arguments Returned {A} a.
Arguments Raised {A}.

(** The body of the [try] for one stripped line: [None] is the
    [ValueError] of the tuple unpacking when the line has no colon. *)
Definition config_entry (line : string) : option (string * list string) :=
  match Py.split1 ":" line with
  | (stock_type, Some tickers_str) =>
      let tickers := map Py.strip (Py.split "," tickers_str) in
      Some (Py.strip stock_type, tickers)
  | (_, None) => None
  end.

(** One iteration of [for line in f]. *)
Definition parse_config_line (config : Py.dict (list string)) (raw : string)
  : Py.dict (list string) :=
  let line := Py.strip raw in
  if bool_decide (line = EmptyString) || Py.startswith "#" line then config
  else match config_entry line with
       | Some (stock_type, tickers) => Py.dict_set stock_type tickers config
       | None => config      (* warning printed, line skipped *)
       end.

Definition parse_config_lines (lines : list string) : Py.dict (list string) :=
  fold_left parse_config_line lines [].

Definition parse_config (f : config_file)
  : outcome (option (Py.dict (list string))) :=
  match f with
  | CfgMissing => Returned None
  | CfgUnreadable => Raised
  | CfgLines lines => Returned (Some (parse_config_lines lines))
  end.

(** The entry a raw line contributes, if any: its group label and tickers. *)
Definition line_entry (raw : string) : option (string * list string) :=
  let line := Py.strip raw in
  if bool_decide (line = EmptyString) || Py.startswith "#" line then None
  else config_entry line.

(** Whether a character occurs in a string. *)
Fixpoint has_char (c : ascii) (s : string) : bool :=
  match s with
  | EmptyString => false
  | String c' s' => bool_decide (c' = c) || has_char c s'
  end.

(** A line that [parse_config] passes over: blank once stripped, a
    comment, or without a colon. *)
Definition skipped_line (raw : string) : bool :=
  let line := Py.strip raw in
  bool_decide (line = EmptyString) || Py.startswith "#" line || negb (has_char ":" line).

(** ** pandas timestamps and the on-disk timestamp format *)

Module Pd.

(** Bounds of [Timestamp]: an [int64] count of nanoseconds; the least
    [int64] is reserved for [NaT]. *)
Definition TS_MIN : Z := -9223372036854775807.
Definition TS_MAX : Z := 9223372036854775807.
Definition NS_PER_SEC : Z := 1000000000.

(** Proleptic Gregorian calendar: day number since 1970-01-01 to
    (year, month, day) and back. *)
Definition civil_from_days (z : Z) : Z * Z * Z :=
  let z := z + 719468 in
  let era := z / 146097 in
  let doe := z - era * 146097 in
  let yoe := (doe - doe / 1460 + doe / 36524 - doe / 146096) / 365 in
  let y := yoe + era * 400 in
  let doy := doe - (365 * yoe + yoe / 4 - yoe / 100) in
  let mp := (5 * doy + 2) / 153 in
  let d := doy - (153 * mp + 2) / 5 + 1 in
  let m := if mp <? 10 then mp + 3 else mp - 9 in
  (if m <=? 2 then y + 1 else y, m, d).

Definition days_from_civil (y m d : Z) : Z :=
  let y := if m <=? 2 then y - 1 else y in
  let era := y / 400 in
  let yoe := y - era * 400 in
  let doy := (153 * (if 2 <? m then m - 3 else m + 9) + 2) / 5 + d - 1 in
  let doe := yoe * 365 + yoe / 4 - yoe / 100 + doy in
  era * 146097 + doe - 719468.

Definition is_leap (y : Z) : bool :=
  (y mod 4 =? 0) && (negb (y mod 100 =? 0) || (y mod 400 =? 0)).

Definition days_in_month (y m : Z) : Z :=
  if m =? 2 then (if is_leap y then 29 else 28)
  else if (m =? 4) || (m =? 6) || (m =? 9) || (m =? 11) then 30
  else 31.

Definition digit_char (d : Z) : ascii := ascii_of_N (48 + Z.to_N d).

Definition char_digit (c : ascii) : option Z :=
  let n := Z.of_N (N_of_ascii c) in
  if (48 <=? n) && (n <=? 57) then Some (n - 48) else None.

(** Zero-padded decimal fields, as [%m], [%d], [%H], [%M], [%S] and
    [%Y] print them. *)
Definition pad2 (n : Z) (k : string) : string :=
  String (digit_char (n / 10)) (String (digit_char (n mod 10)) k).

Definition pad4 (n : Z) (k : string) : string :=
  pad2 (n / 100) (pad2 (n mod 100) k).

(** [strftime('%Y-%m-%d %H:%M:%S%z')] of a UTC timestamp, which is how
    [to_csv(date_format=...)] prints the index: the sub-second part is
    not printed, and the offset of UTC prints as [+0000]. *)
Definition strftime_csv (t : Z) : string :=
  let secs := t / NS_PER_SEC in
  let '(y, m, d) := civil_from_days (secs / 86400) in
  let sod := secs mod 86400 in
  pad4 y (String "-" (pad2 m (String "-" (pad2 d (String " "
    (pad2 (sod / 3600) (String ":" (pad2 (sod mod 3600 / 60) (String ":"
      (pad2 (sod mod 60) "+0000"))))))))))%char.

(** Reading the same format. *)
Fixpoint digits (n : nat) (acc : Z) (s : string) : option (Z * string) :=
  match n with
  | O => Some (acc, s)
  | S n' =>
      match s with
      | String c s' => d ← char_digit c; digits n' (10 * acc + d) s'
      | EmptyString => None
      end
  end.

Definition expect (c : ascii) (s : string) : option string :=
  match s with
  | String c' s' => if bool_decide (c' = c) then Some s' else None
  | EmptyString => None
  end.

Definition offset_sign (s : string) : option (Z * string) :=
  match s with
  | String c s' =>
      if bool_decide (c = "+"%char) then Some (1, s')
      else if bool_decide (c = "-"%char) then Some (-1, s')
      else None
  | EmptyString => None
  end.

(** [to_datetime(s, format='%Y-%m-%d %H:%M:%S%z', utc=True)] on one
    cell written as [YYYY-MM-DD HH:MM:SS+HHMM] or, with a colon in the
    offset, [YYYY-MM-DD HH:MM:SS+HH:MM]: the UTC instant, or [None] where
    the parser raises [ValueError] (text that does not match, a field out of
    range, an offset of a day or more, an instant outside the [Timestamp]
    bounds).  These are the spellings the writer and pandas' default
    printing produce; the other forms [%z] and [%S] take ([Z], an offset
    with seconds, a second of 60) count here as not matching. *)
Definition strptime_csv (s : string) : option Z :=
  '(Y, s) ← digits 4 0 s; s ← expect "-" s;
  '(m, s) ← digits 2 0 s; s ← expect "-" s;
  '(d, s) ← digits 2 0 s; s ← expect " " s;
  '(hh, s) ← digits 2 0 s; s ← expect ":" s;
  '(mi, s) ← digits 2 0 s; s ← expect ":" s;
  '(ss, s) ← digits 2 0 s;
  '(sg, s) ← offset_sign s;
  '(zh, s) ← digits 2 0 s;
  let s := default s (expect ":" s) in
  '(zm, s) ← digits 2 0 s;
  let wall := days_from_civil Y m d * 86400 + hh * 3600 + mi * 60 + ss in
  let t := (wall - sg * (zh * 3600 + zm * 60)) * NS_PER_SEC in
  if bool_decide (s = EmptyString)
     && (1 <=? m) && (m <=? 12) && (1 <=? d) && (d <=? days_in_month Y m)
     && (hh <=? 23) && (mi <=? 59) && (ss <=? 59)
     && (zh <=? 23) && (zm <=? 59)
     && (TS_MIN <=? t) && (t <=? TS_MAX)
  then Some t else None.

End Pd.

(** ** Segment files and the ticker directory *)

(** One text line of a CSV file: its first cell and the cells after it. *)
Record line := Line { index_cell : string; data_cells : list string }.

(** A file is its lines; a directory maps file names to files. *)
Abbreviation file := (list line).

Definition strlen (s : string) : Z := Z.of_nat (String.length s).

(** Bytes of a line: its cells, a comma before each data cell, the
    newline (one byte per character). *)
Definition line_bytes (l : line) : Z :=
  strlen (index_cell l) + foldr (fun c acc => 1 + strlen c + acc) 0 (data_cells l) + 1.

Definition file_bytes (f : file) : Z := foldr (fun l acc => line_bytes l + acc) 0 f.

Module Os.

(** [os.path.exists] and [os.path.getsize] on a file of the directory;
    [getsize] is [None] where Python raises [FileNotFoundError]. *)
Definition path_exists (d : gmap string file) (name : string) : bool :=
  bool_decide (is_Some (d !! name)).

Definition getsize (d : gmap string file) (name : string) : option Z :=
  file_bytes <$> d !! name.

Fixpoint endswith (suffix s : string) : bool :=
  bool_decide (s = suffix) ||
  match s with
  | EmptyString => false
  | String _ s' => endswith suffix s'
  end.

(** [glob.has_magic]: whether a path holds one of the pattern characters
    [*], [?] and [[]. *)
Definition has_magic (path : string) : bool :=
  has_char "*" path || has_char "?" path || has_char "[" path.

(** [glob.glob(os.path.join(ticker_dir, "*.csv"))] for a directory path
    that [glob] takes literally, which it does when [has_magic] is false of
    it: the names of the directory that end in [.csv] and do not start with
    a dot, in no particular order.  ([glob] reads pattern characters in the
    directory part as well: what it lists for such a path depends on the
    sibling directories and is not described by this function.) *)
Definition is_csv (name : string) : bool :=
  endswith ".csv" name && negb (Py.startswith "." name).

Definition glob_csv (d : gmap string file) : list string :=
  filter (fun n => is_csv n = true) (map fst (map_to_list d)).

(** [os.makedirs(path, exist_ok=True)] on a store of directories. *)
Definition makedirs (path : string) (st : gmap string (gmap string file))
  : gmap string (gmap string file) :=
  match st !! path with
  | Some _ => st
  | None => <[path := ∅]> st
  end.

End Os.

(** Python orders strings by code point, character by character;
    [sorted] on file names. *)
Definition sorted (names : list string) : list string := merge_sort String.le names.

(** [f"{base_filename}_{i}.csv"] with the default base name. *)
Definition data_filename (i : nat) : string :=
  "data_" +:+ NilEmpty.string_of_uint (Nat.to_uint i) +:+ ".csv".

(** ** get_next_available_filename (main.py, lines 93-100)

    The [while True] scan from [i = 0].  A directory of [n] files cannot
    hold all of [data_0 .. data_n], so [n] probes decide the answer: after
    [n] names found present the next one is free. *)
Fixpoint next_available_from (probes : nat) (i : nat) (d : gmap string file) : string :=
  let filename := data_filename i in
  match probes with
  | O => filename
  | S probes' =>
      if Os.path_exists d filename then next_available_from probes' (S i) d
      else filename
  end.

Definition get_next_available_filename (d : gmap string file) : string :=
  next_available_from (size d) 0 d.

(** ** get_latest_timestamp_from_dir (main.py, lines 38-90) *)

Inductive exn :=
| ValueError | TypeError | EmptyDataError | FileNotFoundError | OtherException.

Inductive result (A : Type) :=
| Ok (a : A)
| Err (e : exn).
Arguments Ok {A} a.
Arguments Err {A} e.

(** What [pd.read_csv(path, index_col=0)] hands back: the number of data
    columns and the index values as text. *)
Record dataframe := DataFrame { df_columns : nat; df_index : list string }.

Definition df_empty (df : dataframe) : bool :=
  bool_decide (df_columns df = O) || bool_decide (df_index df = []).

(** [Index.dropna()] on parsed timestamps: [None] is [NaT]. *)
Definition dropna (parsed : list (option Z)) : list Z := omap id parsed.

Section Resolver.

(** The library calls of the function:
    - [read_csv]: reading one file, which may raise;
    - [strict]: [to_datetime(index, format=..., utc=True)], [None] where it
      raises [ValueError] or [TypeError], else one instant or [NaT] per row;
    - [lenient]: [to_datetime(index, errors='coerce', utc=True)], which
      gives [NaT] for what it cannot read. *)
Variable read_csv : string -> result dataframe.
Variable strict : list string -> option (list (option Z)).
Variable lenient : list string -> list (option Z).

(** The inner [try]/[except (ValueError, TypeError)]. *)
Definition parsed_index (index : list string) : list (option Z) :=
  match strict index with
  | Some parsed => parsed
  | None => lenient index
  end.

(** The body of the outer [try]; its value is what the function goes
    on to return, [latest_overall_timestamp_utc] included. *)
Definition resolver_try (last_file : string) : result (option Z) :=
  match read_csv last_file with
  | Err e => Err e
  | Ok df_last_file =>
      if df_empty df_last_file then Ok None
      else
        let valid_timestamps := dropna (parsed_index (df_index df_last_file)) in
        match last (merge_sort Z.le valid_timestamps) with
        | None => Ok None                      (* valid_timestamps.empty *)
        | Some file_latest_ts_utc => Ok (Some file_latest_ts_utc)
        end
  end.

(** [csv_names] is what [glob] lists for the ticker directory. *)
Definition get_latest_timestamp_from_dir (csv_names : list string)
  : outcome (option Z) :=
  let csv_files := sorted csv_names in
  match last csv_files with
  | None => Returned None
  | Some last_file =>
      match resolver_try last_file with
      | Ok latest => Returned latest
      | Err EmptyDataError => Returned None    (* pass; nothing was assigned *)
      | Err FileNotFoundError => Returned None
      | Err _ => Returned None                 (* except Exception *)
      end
  end.

End Resolver.

(** The number of fields of a line. *)
Definition fields (l : line) : nat := S (length (data_cells l)).

(** [pd.read_csv(path, index_col=0)] on a file of the directory.  The
    first line gives the names, the index is the first cell of every data
    line.  The tokenizer lets the first data line be wider than the header:
    with one field more its first field is an index without a name and all
    the header fields are columns, with two or more the index cannot be
    built and [ParserError] is raised.  A later line with more fields than
    the widest line so far raises [ParserError] ("Expected n fields in
    line k, saw m"); a line with fewer is filled with missing values. *)
Definition fs_read_csv (d : gmap string file) (name : string) : result dataframe :=
  match d !! name with
  | None => Err FileNotFoundError
  | Some [] => Err EmptyDataError
  | Some [header] => Ok (DataFrame (length (data_cells header)) [])
  | Some (header :: (first :: rest) as body) =>
      let leading_cols := (fields first - fields header)%nat in
      let expected := (fields header `max` fields first)%nat in
      if bool_decide (1 < leading_cols)%nat
         || bool_decide (Exists (fun l => (expected < fields l)%nat) rest)
      then Err OtherException               (* pandas.errors.ParserError *)
      else Ok (DataFrame (length (data_cells header) + leading_cols)
                         (map index_cell body))
  end.

(** Cells that [read_csv] reads as missing values. *)
Definition na_values : list string :=
  [""; "#N/A"; "#N/A N/A"; "#NA"; "-1.#IND"; "-1.#QNAN"; "-NaN"; "-nan";
   "1.#IND"; "1.#QNAN"; "<NA>"; "N/A"; "NA"; "NULL"; "NaN"; "None"; "n/a";
   "nan"; "null"].

Definition strict_cell (c : string) : option (option Z) :=
  if bool_decide (c ∈ na_values) then Some None
  else t ← Pd.strptime_csv c; Some (Some t).

Definition to_datetime_strict (index : list string) : option (list (option Z)) :=
  mapM strict_cell index.

(** ** Fetched data *)

(** A row of the fetched frame: its index value and its printed fields. *)
Record row := Row { ts : Z; cells : list string }.

(** The frame [yf.download] returns: the time zone of its index ([None]
    for a naive index, whose values then count as UTC wall time), the
    name of the index, the column names and the rows. *)
Record frame := Frame {
  tz : option string;
  index_name : string;
  columns : list string;
  rows : list row
}.

Definition frame_empty (data : frame) : bool :=
  bool_decide (columns data = []) || bool_decide (rows data = []).

Definition with_rows (data : frame) (rs : list row) : frame :=
  Frame (tz data) (index_name data) (columns data) rs.

(** ** The Reconciler (main.py, lines 143-153) *)

(** [tz_localize('UTC')] on a naive index and [tz_convert('UTC')] on an
    aware one: the instants stay, the zone becomes UTC. *)
Definition tz_localize_utc (data : frame) : frame :=
  Frame (Some "UTC") (index_name data) (columns data) (rows data).

Definition tz_convert_utc (data : frame) : frame :=
  Frame (Some "UTC") (index_name data) (columns data) (rows data).

Definition ts_le (a b : row) : Prop := ts a <= ts b.

#[global] Instance ts_le_dec (a b : row) : Decision (ts_le a b).
Proof. unfold ts_le. apply _. Defined.

(** [data.sort_index()]: ascending by timestamp.  Rows with equal
    timestamps keep their order here; pandas promises no order among
    them. *)
Definition sort_index (data : frame) : frame :=
  with_rows data (merge_sort ts_le (rows data)).

Definition reconcile (latest_timestamp_from_csv : option Z) (data : frame) : frame :=
  let data := match tz data with
              | None => tz_localize_utc data
              | Some _ => tz_convert_utc data
              end in
  let data := sort_index data in
  match latest_timestamp_from_csv with
  | Some latest => with_rows data (filter (fun r => latest < ts r) (rows data))
  | None => data
  end.

(** ** The Segment Writer (main.py, lines 161-219) *)

Definition header_line (data : frame) : line := Line (index_name data) (columns data).

(** A row as [to_csv] prints it with
    [date_format='%Y-%m-%d %H:%M:%S%z']. *)
Definition row_line (r : row) : line := Line (Pd.strftime_csv (ts r)) (cells r).

(** [chunk.to_csv(target, mode='a', header=write_header, index=True, ...)]:
    the file is created when missing and the lines go to its end. *)
Definition to_csv (d : gmap string file) (target : string) (write_header : bool)
    (hdr : line) (chunk : list row) : gmap string file :=
  <[target := default [] (d !! target)
              ++ (if write_header then [hdr] else []) ++ map row_line chunk]> d.

Definition estimated_bytes_per_row : Z := 150.

(** [max(1, int(MAX_FILE_SIZE_BYTES / estimated_bytes_per_row * 0.90))].
    The quotient is 349525.33.. and nine tenths of it 314572.8, far from
    an integer, so the floating-point product has the integer part of the
    exact one. *)
Definition num_rows_for_chunk : Z :=
  Z.max 1 (MAX_FILE_SIZE_BYTES * 90 / (estimated_bytes_per_row * 100)).

(** The state of the [while] loop. *)
Record wstate := WState {
  w_dir : gmap string file;
  w_target : string;
  w_rows : list row
}.

(** Lines 179-186: the size of the target and whether a header is due. *)
Definition current_size (d : gmap string file) (target : string) : Z :=
  if Os.path_exists d target then default 0 (Os.getsize d target) else 0.

Definition header_due (d : gmap string file) (target : string) : bool :=
  negb (Os.path_exists d target) || (current_size d target =? 0).

(** Lines 192-196: the rollover check, giving the target, the header
    flag and the tracked size the rest of the iteration uses. *)
Definition rollover (d : gmap string file) (target : string) (n_rows : Z)
  : string * bool * Z :=
  let current_file_size := current_size d target in
  let write_header := header_due d target in
  let estimated_new_data_size := n_rows * estimated_bytes_per_row in
  if (0 <? current_file_size)
     && (MAX_FILE_SIZE_BYTES <? current_file_size + estimated_new_data_size)
  then (get_next_available_filename d, true, 0)
  else (target, write_header, current_file_size).

(** One iteration of the loop body (lines 179-219). *)
Definition write_step (hdr : line) (st : wstate) : wstate :=
  let d := w_dir st in
  let rows_to_write := w_rows st in
  let n_rows := Z.of_nat (length rows_to_write) in
  let estimated_new_data_size := n_rows * estimated_bytes_per_row in
  let '(target_csv_file, write_header, current_file_size) :=
    rollover d (w_target st) n_rows in
  if (1 <? n_rows) && (MAX_FILE_SIZE_BYTES <? estimated_new_data_size)
     && (current_file_size =? 0)
  then
    let k := Z.to_nat num_rows_for_chunk in
    let current_chunk := take k rows_to_write in
    let remaining_rows := drop k rows_to_write in
    let d' := to_csv d target_csv_file write_header hdr current_chunk in
    let target' := match remaining_rows with
                   | [] => target_csv_file
                   | _ :: _ => get_next_available_filename d'
                   end in
    WState d' target' remaining_rows
  else
    WState (to_csv d target_csv_file write_header hdr rows_to_write)
           target_csv_file [].

(** [while not rows_to_write.empty]: at most [fuel] iterations. *)
Fixpoint write_loop (fuel : nat) (hdr : line) (st : wstate) : wstate :=
  match w_rows st with
  | [] => st
  | _ :: _ =>
      match fuel with
      | O => st
      | S fuel' => write_loop fuel' hdr (write_step hdr st)
      end
  end.

(** Lines 162-174: the file the first write goes to. *)
Definition initial_target (d : gmap string file) : string :=
  let csv_files := sorted (Os.glob_csv d) in
  match last csv_files with
  | Some target_csv_file =>
      match Os.getsize d target_csv_file with
      | Some size =>
          if MAX_FILE_SIZE_BYTES <=? size then get_next_available_filename d
          else target_csv_file
      | None => get_next_available_filename d       (* FileNotFoundError *)
      end
  | None => get_next_available_filename d
  end.

(** Lines 162-219.  Every iteration writes at least one row, so the
    number of rows bounds the number of iterations. *)
Definition segment_writer (d : gmap string file) (data : frame) : wstate :=
  write_loop (length (rows data)) (header_line data)
             (WState d (initial_target d) (rows data)).

(** ** download_and_store_data (main.py, lines 102-221) *)

Inductive fetch_result :=
| FetchRaised                 (* yf.download raised *)
| Fetched (data : frame).

(** The world of a run: the directories under the base directory with
    their files, the clock read by [Timestamp.now], and the calls made to
    the provider (ticker, start, end), latest first.  The store is keyed by
    the path the program spells; two spellings of one directory are two
    keys.  The operating system accepts every call: [os.makedirs] and
    [to_csv], which the source leaves outside any [try], do not raise in
    this world. *)
Record world := World {
  store : gmap string (gmap string file);
  clock : Z;
  calls : list (string * Z * Z)
}.

Definition one_minute : Z := 60 * Pd.NS_PER_SEC.
Definition one_day : Z := 86400 * Pd.NS_PER_SEC.

Definition ticker_dir_of (stock_type ticker : string) : string :=
  Py.path_join (Py.path_join BASE_DOWNLOAD_DIR stock_type) ticker.

Section Pipeline.

(** The provider and the lenient parser of pandas are outside the
    program.  The path of the ticker directory is taken literally by both
    [glob] calls, as it is when [Os.has_magic] is false of it. *)
Variable yf_download : string -> Z -> Z -> fetch_result.
Variable lenient : list string -> list (option Z).

Definition resolve (d : gmap string file) : outcome (option Z) :=
  get_latest_timestamp_from_dir (fs_read_csv d) to_datetime_strict lenient
    (Os.glob_csv d).

Definition download_and_store_data (stock_type ticker : string) (w : world)
  : outcome world :=
  let ticker_dir := ticker_dir_of stock_type ticker in
  let w := World (Os.makedirs ticker_dir (store w)) (clock w) (calls w) in
  let d := default ∅ (store w !! ticker_dir) in
  match resolve d with
  | Raised => Raised
  | Returned latest_timestamp_from_csv =>
      let end_date_yf := clock w in
      let start_date_yf :=
        match latest_timestamp_from_csv with
        | Some latest => latest + one_minute
        | None => end_date_yf - DOWNLOAD_PERIOD_DAYS * one_day
        end in
      if bool_decide (is_Some latest_timestamp_from_csv)
         && (end_date_yf <=? start_date_yf)
      then Returned w                               (* already up to date *)
      else
        let w := World (store w) (clock w)
                       ((ticker, start_date_yf, end_date_yf) :: calls w) in
        match yf_download ticker start_date_yf end_date_yf with
        | FetchRaised => Returned w
        | Fetched data =>
            if frame_empty data then Returned w
            else
              let data := reconcile latest_timestamp_from_csv data in
              if frame_empty data then Returned w
              else
                let d' := w_dir (segment_writer d data) in
                Returned (World (<[ticker_dir := d']> (store w)) (clock w) (calls w))
        end
  end.

End Pipeline.

(** ** The entry point (main.py, lines 225-231) *)

(** What the entry point does with the configuration, before it creates
    any directory: [inl status] when the process ends there with that exit
    status, [inr config_data] when it goes on to the loop over the groups
    and their tickers.  [exit()] without an argument ends the process with
    status 0; an exception that nobody catches ends it with status 1. *)
Definition main_startup (cfg : config_file) : Z + Py.dict (list string) :=
  match parse_config cfg with
  | Raised => inl 1
  | Returned None => inl 0                     (* not config_data: exit() *)
  | Returned (Some []) => inl 0                (* an empty dict is falsy too *)
  | Returned (Some config_data) => inr config_data
  end.

(** ** Ticker Directories as segment lists

    The storage layout [data_<ordinal>.csv] with ordinals [0 .. n-1] and no
    gap: the directory that holds the [i]-th file of a list under the name
    [data_filename i]. *)

Fixpoint dir_from (i : nat) (segs : list file) : gmap string file :=
  match segs with
  | [] => ∅
  | f :: rest => <[data_filename i := f]> (dir_from (S i) rest)
  end.

Definition dir_of (segs : list file) : gmap string file := dir_from 0 segs.

(** The header lines of one append. *)
Definition header_if (write_header : bool) (hdr : line) : list line :=
  if write_header then [hdr] else [].

(** Appending lines to segment [i]: to its end when it exists, as a new
    last segment otherwise. *)
Definition append_at (segs : list file) (i : nat) (lines : list line) : list file :=
  match segs !! i with
  | Some f => <[i := f ++ lines]> segs
  | None => segs ++ [lines]
  end.

(** The data lines of the segments in ordinal order, as [read_csv] takes
    them: every line but the first of each file. *)
Definition stored_lines (segs : list file) : list line :=
  concat (map (fun f : file => tail f) segs).

(** The timestamps the strict format reads from data lines; [None] when
    a line does not parse. *)
Definition line_timestamps (lines : list line) : option (list Z) :=
  mapM (fun l => Pd.strptime_csv (index_cell l)) lines.

(** Strictly increasing, hence without duplicates: every element is less
    than all the later ones. *)
Definition increasing (l : list Z) : Prop := StronglySorted Z.lt l.

(** The timestamps stored in a Ticker Directory, in ordinal order. *)
Definition history (segs : list file) : option (list Z) :=
  line_timestamps (stored_lines segs).

(** The invariant of C2 on a directory: it is a Ticker Directory whose
    stored timestamps all parse and increase strictly. *)
Definition monotonic (d : gmap string file) : Prop :=
  exists segs tss, d = dir_of segs /\ history segs = Some tss /\ increasing tss.

(** A timestamp the on-disk format holds exactly. *)
Definition whole_second (t : Z) : Prop :=
  Pd.TS_MIN <= t <= Pd.TS_MAX /\ t mod Pd.NS_PER_SEC = 0.

(** A timestamp that a run can store and a later run resume from: a whole
    second, at least a minute below the upper bound of [Timestamp], so that
    the minute that line 113 adds to the latest stored timestamp does not
    leave the bounds. *)
Definition resumable (t : Z) : Prop :=
  whole_second t /\ t + one_minute <= Pd.TS_MAX.

(** A fetched frame of [ncols] columns, one cell per column in every
    row, without repeated timestamps, all of them resumable. *)
Definition fetched_ok (ncols : nat) (data : frame) : Prop :=
  length (columns data) = ncols
  /\ Forall (fun r => length (cells r) = ncols) (rows data)
  /\ NoDup (map ts (rows data))
  /\ Forall (fun r => resumable (ts r)) (rows data).

(** A data line as the writer prints it for a frame of [ncols] columns:
    one cell per column after a resumable timestamp in the on-disk
    format. *)
Definition written_line (ncols : nat) (l : line) : Prop :=
  length (data_cells l) = ncols
  /\ exists t, resumable t /\ index_cell l = Pd.strftime_csv t.

(** A segment as the writer leaves it for frames of [ncols] columns: a
    header that names the columns, at least one of them, then at least one
    data line, all of them as the writer prints them. *)
Definition seg_ok (ncols : nat) (f : file) : Prop :=
  exists h l body,
    f = h :: l :: body /\ length (data_cells h) = ncols /\ ncols <> O
    /\ Forall (written_line ncols) (l :: body).

(** The start of the window a run asks the provider for, given what the
    Resolver found, and the test that skips the fetch. *)
Definition start_of (latest : option Z) (now : Z) : Z :=
  match latest with
  | Some l => l + one_minute
  | None => now - DOWNLOAD_PERIOD_DAYS * one_day
  end.

Definition up_to_date (latest : option Z) (now : Z) : bool :=
  bool_decide (is_Some latest) && (now <=? start_of latest now).

(** A provider answer that brings nothing to store: a failure, an empty
    frame, or rows none of which is later than the latest stored timestamp. *)
Definition nothing_new (latest : option Z) (answer : fetch_result) : Prop :=
  match answer with
  | FetchRaised => True
  | Fetched data =>
      frame_empty data = true
      \/ exists l, latest = Some l /\ Forall (fun r => ts r <= l) (rows data)
  end.

(** Append-only growth of a directory: every file of [d] is still in [d']
    and begins with the lines it had. *)
Definition extends (d d' : gmap string file) : Prop :=
  forall name f, d !! name = Some f -> exists extra, d' !! name = Some (f ++ extra).

(** ** Sample data for the examples *)

Definition sample_header : line :=
  Line "Datetime" ["Close"; "High"; "Low"; "Open"; "Volume"].

(** A bar [minute] minutes after 2024-06-03 15:59:00 UTC. *)
Definition sample_row (minute : Z) : row :=
  Row (1717430340000000000 + minute * one_minute)
      ["101.5"; "102.0"; "101.0"; "101.25"; "5000"].

Definition sample_segment (minute : Z) : file :=
  [sample_header; row_line (sample_row minute)].

(** Eleven segments, [data_0.csv] to [data_10.csv], one bar each, in time
    order. *)
Definition eleven_segments : list file :=
  map sample_segment [0; 1; 2; 3; 4; 5; 6; 7; 8; 9; 10].

(** Eleven segments of which the one of the highest ordinal,
    [data_10.csv], has a header and no row yet. *)
Definition eleven_segments_last_without_rows : list file :=
  map sample_segment [0; 1; 2; 3; 4; 5; 6; 7; 8; 9] ++ [[sample_header]].

Definition sample_frame (rs : list row) : frame :=
  Frame None "Datetime" ["Close"; "High"; "Low"; "Open"; "Volume"] rs.

(** * Properties *)

Example parse_config_sample :
  parse_config_lines
    ["# groups"; ""; "tech: AAPL, MSFT "; "no colon here"; " fx :EURUSD=X"; "tech:NVDA"]
  = [("tech", ["NVDA"]); ("fx", ["EURUSD=X"])].
Proof. reflexivity. Qed.

Example has_magic_sample :
  Os.has_magic (ticker_dir_of "tech" "AAPL") = false
  /\ Os.has_magic (ticker_dir_of "tech [US]" "AAPL") = true.
Proof. split; reflexivity. Qed.

Example strftime_epoch : Pd.strftime_csv 0 = "1970-01-01 00:00:00+0000".
Proof. reflexivity. Qed.

Example strftime_sample :
  Pd.strftime_csv 1717430340000000000 = "2024-06-03 15:59:00+0000".
Proof. vm_compute. reflexivity. Qed.

Example strptime_sample :
  Pd.strptime_csv "2024-06-03 11:59:00-0400" = Some 1717430340000000000.
Proof. vm_compute. reflexivity. Qed.

Example strftime_before_epoch :
  Pd.strftime_csv (-1) = "1969-12-31 23:59:59+0000".
Proof. vm_compute. reflexivity. Qed.

(** ** parse_config *)

Section Dict.
Context {V : Type}.
Implicit Types (d : Py.dict V) (k : string) (v : V).

Lemma dict_get_set_eq k v d : Py.dict_get k (Py.dict_set k v d) = Some v.
Proof.
  induction d as [|[k' v'] d IH]; simpl.
  - by rewrite bool_decide_eq_true_2.
  - case_bool_decide; simpl; case_bool_decide; congruence.
Qed.

Lemma dict_get_set_ne k k' v d :
  k ≠ k' -> Py.dict_get k' (Py.dict_set k v d) = Py.dict_get k' d.
Proof.
  intros Hne. induction d as [|[k0 v0] d IH]; simpl.
  - by rewrite bool_decide_eq_false_2.
  - case_bool_decide; simpl; repeat case_bool_decide; congruence.
Qed.

Lemma dict_set_keys_in k v d k0 :
  k0 ∈ (Py.dict_set k v d).*1 <-> k0 = k \/ k0 ∈ d.*1.
Proof.
  induction d as [|[k' v'] d IH]; simpl.
  - rewrite list_elem_of_singleton, elem_of_nil. tauto.
  - case_bool_decide; simpl; rewrite !elem_of_cons; [subst|rewrite IH]; tauto.
Qed.

Lemma dict_set_keys_NoDup k v d :
  NoDup d.*1 -> NoDup (Py.dict_set k v d).*1.
Proof.
  induction d as [|[k' v'] d IH]; simpl; intros Hnd.
  - apply NoDup_singleton.
  - apply NoDup_cons in Hnd as [Hni Hnd].
    case_bool_decide; simpl; apply NoDup_cons; subst; [done|].
    split; [|by apply IH].
    rewrite dict_set_keys_in. intros [->|?]; done.
Qed.

Lemma dict_get_None k d : k ∉ d.*1 -> Py.dict_get k d = None.
Proof.
  induction d as [|[k' v'] d IH]; simpl; [done|].
  rewrite not_elem_of_cons. intros [Hne Hni].
  rewrite bool_decide_eq_false_2 by done. by apply IH.
Qed.

Lemma dict_filter_absent k d :
  k ∉ d.*1 -> filter (fun kv => kv.1 = k) d = [].
Proof.
  induction d as [|[k' v'] d IH]; [done|].
  rewrite fmap_cons, not_elem_of_cons. intros [Hne Hni].
  rewrite filter_cons_False by (simpl in *; congruence). by apply IH.
Qed.

(** With one binding per key, the bindings of [k] are the one that
    [dict_get] finds. *)
Lemma dict_filter_get k v d :
  NoDup d.*1 -> Py.dict_get k d = Some v ->
  filter (fun kv => kv.1 = k) d = [(k, v)].
Proof.
  induction d as [|[k' v'] d IH]; [done|].
  rewrite fmap_cons. cbn [Py.dict_get fst].
  intros Hnd Hget. apply NoDup_cons in Hnd as [Hni Hnd].
  case_bool_decide as Hk.
  - simplify_eq. rewrite filter_cons_True by done.
    by rewrite dict_filter_absent.
  - rewrite filter_cons_False by done. by apply IH.
Qed.
End Dict.

Lemma parse_config_line_entry config raw :
  parse_config_line config raw =
  match line_entry raw with
  | Some (stock_type, tickers) => Py.dict_set stock_type tickers config
  | None => config
  end.
Proof.
  unfold parse_config_line, line_entry.
  destruct (_ || _); [done|]. by destruct (config_entry _) as [[??]|].
Qed.

Lemma parse_config_fold_NoDup lines : forall config,
  NoDup config.*1 -> NoDup (fold_left parse_config_line lines config).*1.
Proof.
  induction lines as [|l lines IH]; intros config Hnd; simpl; [done|].
  apply IH. rewrite parse_config_line_entry.
  destruct (line_entry l) as [[g t]|]; [|done]. by apply dict_set_keys_NoDup.
Qed.

Lemma parse_config_fold_keep g lines : forall config,
  (forall l t, l ∈ lines -> line_entry l ≠ Some (g, t)) ->
  Py.dict_get g (fold_left parse_config_line lines config) = Py.dict_get g config.
Proof.
  induction lines as [|l lines IH]; intros config Hno; simpl; [done|].
  rewrite IH by (intros; apply Hno; by right).
  rewrite parse_config_line_entry.
  destruct (line_entry l) as [[g' t']|] eqn:Hl; [|done].
  apply dict_get_set_ne. intros ->. by eapply (Hno l t'); [left|].
Qed.

(** C10. When two well-formed lines carry the same group label, the later
    one being the last line with that label, the parsed mapping binds the
    label once, to the ticker list of the later line: the list of the earlier
    line is not in the mapping. *)
Theorem parse_config_later_line_wins before l1 between l2 after g t1 t2 :
  line_entry l1 = Some (g, t1) ->
  line_entry l2 = Some (g, t2) ->
  (forall l t, l ∈ after -> line_entry l ≠ Some (g, t)) ->
  exists config,
    parse_config (CfgLines (before ++ l1 :: between ++ l2 :: after))
      = Returned (Some config)
    /\ Py.dict_get g config = Some t2
    /\ filter (fun kv => kv.1 = g) config = [(g, t2)].
Proof.
  intros H1 H2 Hafter. eexists. split; [reflexivity|].
  assert (Hget : Py.dict_get g
            (parse_config_lines (before ++ l1 :: between ++ l2 :: after)) = Some t2).
  { unfold parse_config_lines.
    rewrite fold_left_app. simpl. rewrite fold_left_app. simpl.
    rewrite parse_config_fold_keep by done.
    rewrite (parse_config_line_entry _ l2), H2. apply dict_get_set_eq. }
  split; [done|].
  apply dict_filter_get; [|done].
  apply parse_config_fold_NoDup. constructor.
Qed.

Lemma parse_config_later_line_wins_witness :
  exists config,
    parse_config (CfgLines ([] ++ "tech: AAPL, MSFT" :: ["fx: EURUSD=X"] ++ "tech: NVDA" :: ["# end"]))
      = Returned (Some config)
    /\ Py.dict_get "tech" config = Some ["NVDA"]
    /\ filter (fun kv => kv.1 = "tech") config = [("tech", ["NVDA"])].
Proof.
  apply (parse_config_later_line_wins [] "tech: AAPL, MSFT" ["fx: EURUSD=X"]
           "tech: NVDA" ["# end"] "tech" ["AAPL"; "MSFT"] ["NVDA"]).
  - reflexivity.
  - reflexivity.
  - intros l t Hl. apply list_elem_of_singleton in Hl as ->. vm_compute. discriminate.
Defined.

(** ** The on-disk timestamp format *)

Ltac div_lia := Z.to_euclidean_division_equations; lia.

Lemma char_digit_digit_char k :
  0 <= k <= 9 -> Pd.char_digit (Pd.digit_char k) = Some k.
Proof.
  intros Hk.
  assert (k = 0 \/ k = 1 \/ k = 2 \/ k = 3 \/ k = 4 \/ k = 5 \/ k = 6
          \/ k = 7 \/ k = 8 \/ k = 9) as Hc by lia.
  repeat destruct Hc as [->|Hc]; try subst k; reflexivity.
Qed.

Lemma digits_pad2_more n' acc n k :
  0 <= n < 100 ->
  Pd.digits (S (S n')) acc (Pd.pad2 n k) = Pd.digits n' (100 * acc + n) k.
Proof.
  intros Hn. unfold Pd.pad2. cbn [Pd.digits].
  rewrite char_digit_digit_char by div_lia.
  cbn [mbind option_bind].
  rewrite char_digit_digit_char by div_lia.
  cbn [mbind option_bind]. f_equal.
  div_lia.
Qed.

Lemma digits_pad4 acc n k :
  0 <= n < 10000 ->
  Pd.digits 4 acc (Pd.pad4 n k) = Some (10000 * acc + n, k).
Proof.
  intros Hn. unfold Pd.pad4.
  rewrite digits_pad2_more by div_lia.
  rewrite digits_pad2_more by div_lia.
  cbn [Pd.digits]. do 2 f_equal. div_lia.
Qed.

Lemma digits_pad2 acc n k :
  0 <= n < 100 -> Pd.digits 2 acc (Pd.pad2 n k) = Some (100 * acc + n, k).
Proof. intros Hn. by rewrite digits_pad2_more. Qed.

(** Year of era and day of year from the day of era. *)
Lemma doe_split doe :
  0 <= doe <= 146096 ->
  let yoe := (doe - doe / 1460 + doe / 36524 - doe / 146096) / 365 in
  let doy := doe - (365 * yoe + yoe / 4 - yoe / 100) in
  0 <= yoe <= 399 /\ 0 <= doy <= 365
  /\ (doy = 365 -> (yoe + 1) mod 4 = 0 /\ ((yoe + 1) mod 100 <> 0 \/ yoe = 399)).
Proof. intros H yoe doy. subst yoe doy. repeat split; div_lia. Qed.

(** Month and day of month from the day of a year that starts in March. *)
Lemma doy_split doy :
  0 <= doy <= 365 ->
  let mp := (5 * doy + 2) / 153 in
  let d := doy - (153 * mp + 2) / 5 + 1 in
  0 <= mp <= 11 /\ 1 <= d
  /\ (mp = 0 \/ mp = 2 \/ mp = 4 \/ mp = 5 \/ mp = 7 \/ mp = 9 \/ mp = 10 -> d <= 31)
  /\ (mp = 1 \/ mp = 3 \/ mp = 6 \/ mp = 8 -> d <= 30)
  /\ (mp = 11 -> d <= 29 /\ (d = 29 -> doy = 365)).
Proof. intros H mp d. subst mp d. repeat split; div_lia. Qed.

Lemma month_of_mp mp :
  0 <= mp <= 11 ->
  let m := if mp <? 10 then mp + 3 else mp - 9 in
  1 <= m <= 12 /\ (if 2 <? m then m - 3 else m + 9) = mp
  /\ (m <=? 2) = (10 <=? mp) /\ (mp < 10 -> m = mp + 3) /\ (10 <= mp -> m = mp - 9).
Proof.
  intros H m. subst m.
  destruct (Z.ltb_spec mp 10); [destruct (Z.ltb_spec 2 (mp + 3))|destruct (Z.ltb_spec 2 (mp - 9))];
    repeat split; try lia;
    repeat match goal with
    | |- context [?a <=? ?b] => destruct (Z.leb_spec a b)
    end; lia.
Qed.

Lemma days_in_month_cases y m :
  (m = 2 -> Pd.days_in_month y m = if Pd.is_leap y then 29 else 28)
  /\ (m = 4 \/ m = 6 \/ m = 9 \/ m = 11 -> Pd.days_in_month y m = 30)
  /\ (m = 1 \/ m = 3 \/ m = 5 \/ m = 7 \/ m = 8 \/ m = 10 \/ m = 12 ->
      Pd.days_in_month y m = 31).
Proof.
  unfold Pd.days_in_month.
  repeat match goal with
  | |- context [m =? ?b] => destruct (Z.eqb_spec m b)
  end; cbn [orb]; repeat split; intros; lia.
Qed.

Lemma is_leap_of_yoe era yoe :
  0 <= yoe <= 399 ->
  (yoe + 1) mod 4 = 0 /\ ((yoe + 1) mod 100 <> 0 \/ yoe = 399) ->
  Pd.is_leap (yoe + era * 400 + 1) = true.
Proof.
  intros Hy [H4 H100]. unfold Pd.is_leap.
  repeat match goal with
  | |- context [?a =? ?b] => destruct (Z.eqb_spec a b)
  end; cbn [andb orb negb]; try reflexivity; exfalso; div_lia.
Qed.

Lemma civil_from_days_spec z :
  -106752 <= z <= 106751 ->
  exists y m d,
    Pd.civil_from_days z = (y, m, d)
    /\ Pd.days_from_civil y m d = z
    /\ 1600 <= y <= 2400 /\ 1 <= m <= 12 /\ 1 <= d <= Pd.days_in_month y m.
Proof.
  intros Hz. unfold Pd.civil_from_days.
  set (era := (z + 719468) / 146097).
  set (doe := z + 719468 - era * 146097).
  assert (Hera : 4 <= era <= 5) by (subst era; div_lia).
  assert (Hdoe : 0 <= doe <= 146096) by (subst doe era; div_lia).
  pose proof (doe_split doe Hdoe) as Hy. cbv zeta in Hy.
  set (yoe := (doe - doe / 1460 + doe / 36524 - doe / 146096) / 365) in *.
  set (doy := doe - (365 * yoe + yoe / 4 - yoe / 100)) in *.
  destruct Hy as (Hyoe & Hdoy & Hleap).
  pose proof (doy_split doy Hdoy) as Hm. cbv zeta in Hm.
  set (mp := (5 * doy + 2) / 153) in *.
  set (d := doy - (153 * mp + 2) / 5 + 1) in *.
  destruct Hm as (Hmp & Hd1 & H31 & H30 & H29).
  pose proof (month_of_mp mp Hmp) as Hmo. cbv zeta in Hmo.
  set (m := if mp <? 10 then mp + 3 else mp - 9) in *.
  destruct Hmo as (Hm & Hback & Hjf & Hm3 & Hm9).
  assert (Hz' : z = era * 146097 + doe - 719468) by (subst doe; lia).
  assert (Hdoy' : doy = (153 * mp + 2) / 5 + d - 1) by (subst d; lia).
  assert (Hdoe' : doe = yoe * 365 + yoe / 4 - yoe / 100 + doy) by (subst doy; lia).
  clearbody m d mp doy yoe doe era.
  do 3 eexists. split; [reflexivity|].
  unfold Pd.days_from_civil. rewrite Hback, Hjf.
  destruct (Z.leb_spec 10 mp) as [Hge|Hlt].
  - (* January and February belong to the next calendar year *)
    destruct (days_in_month_cases (yoe + era * 400 + 1) m) as (Hfeb & Hd30 & Hd31).
    replace (yoe + era * 400 + 1 - 1) with (yoe + era * 400) by lia.
    replace ((yoe + era * 400) / 400) with era by (clear - Hyoe; div_lia).
    split; [clear - Hz' Hdoe' Hdoy' Hyoe; div_lia|].
    do 2 (split; [clear - Hyoe Hera Hm; lia|]). split; [clear - Hd1; lia|].
    assert (mp = 10 \/ mp = 11) as [->| ->] by lia.
    + rewrite Hd31 by (clear - Hm9; lia). clear - H31; lia.
    + rewrite Hfeb by (clear - Hm9; lia). destruct H29 as [H29 Hd29]; [done|].
      destruct (decide (d = 29)) as [->|].
      * rewrite is_leap_of_yoe by tauto. done.
      * clear - H29 n. destruct (Pd.is_leap _); lia.
  - destruct (days_in_month_cases (yoe + era * 400) m) as (Hfeb & Hd30 & Hd31).
    replace ((yoe + era * 400) / 400) with era by (clear - Hyoe; div_lia).
    split; [clear - Hz' Hdoe' Hdoy' Hyoe; div_lia|].
    do 2 (split; [clear - Hyoe Hera Hm; lia|]). split; [clear - Hd1; lia|].
    destruct (decide (mp = 1 \/ mp = 3 \/ mp = 6 \/ mp = 8)) as [Hs|Hl].
    + rewrite Hd30 by (clear - Hs Hm3 Hlt; lia). by apply H30.
    + rewrite Hd31 by (clear - Hl Hm3 Hlt Hmp; lia). apply H31. clear - Hl Hlt Hmp. lia.
Qed.
Lemma expect_cons c k : Pd.expect c (String c k) = Some k.
Proof. unfold Pd.expect. by rewrite bool_decide_eq_true_2. Qed.

(** What the strict parser makes of a printed timestamp: the instant cut
    to whole seconds. *)
Lemma strptime_strftime_seconds t :
  Pd.TS_MIN <= t / Pd.NS_PER_SEC * Pd.NS_PER_SEC -> t <= Pd.TS_MAX ->
  Pd.strptime_csv (Pd.strftime_csv t) = Some (t / Pd.NS_PER_SEC * Pd.NS_PER_SEC).
Proof.
  unfold Pd.TS_MIN, Pd.TS_MAX, Pd.NS_PER_SEC. intros Hlo Hhi.
  unfold Pd.strftime_csv, Pd.NS_PER_SEC.
  set (secs := t / 1000000000) in *.
  assert (Hsecs : -9223372036 <= secs <= 9223372036) by (subst secs; div_lia).
  destruct (civil_from_days_spec (secs / 86400)) as (y & m & d & -> & Hdays & Hy & Hm & Hd);
    [clear - Hsecs; div_lia|].
  assert (Hd31 : d <= 31).
  { clear - Hd. unfold Pd.days_in_month in Hd.
    destruct (m =? 2); [destruct (Pd.is_leap y)|destruct (_ || _)]; lia. }
  set (sod := secs mod 86400) in *.
  assert (Hsod : 0 <= sod < 86400) by (subst sod; div_lia).
  unfold Pd.strptime_csv.
  rewrite digits_pad4 by lia. cbn [mbind option_bind]. rewrite expect_cons. cbn [mbind option_bind].
  rewrite digits_pad2 by lia. cbn [mbind option_bind]. rewrite expect_cons. cbn [mbind option_bind].
  rewrite digits_pad2 by lia. cbn [mbind option_bind]. rewrite expect_cons. cbn [mbind option_bind].
  rewrite digits_pad2 by (clear - Hsod; div_lia).
  cbn [mbind option_bind]. rewrite expect_cons. cbn [mbind option_bind].
  rewrite digits_pad2 by (clear - Hsod; div_lia).
  cbn [mbind option_bind]. rewrite expect_cons. cbn [mbind option_bind].
  rewrite digits_pad2 by (clear - Hsod; div_lia).
  cbn [mbind option_bind].
  change (Pd.offset_sign "+0000") with (Some (1, Pd.pad2 0 (Pd.pad2 0 EmptyString))).
  cbn [mbind option_bind].
  rewrite digits_pad2 by lia. cbn [mbind option_bind].
  change (Pd.expect ":" (Pd.pad2 0 EmptyString)) with (@None string).
  cbn [default]. cbv zeta.
  rewrite digits_pad2 by lia. cbn [mbind option_bind].
  rewrite !Z.mul_0_r, !Z.add_0_l, Hdays.
  unfold Pd.TS_MIN, Pd.TS_MAX, Pd.NS_PER_SEC.
  match goal with
  | |- context [Some (?e * 1000000000)] =>
      replace e with secs by (subst sod; clear; div_lia)
  end.
  rewrite bool_decide_eq_true_2 by done.
  repeat match goal with
  | |- context [?a <=? ?b] =>
      let H := fresh in
      assert (H : (a <=? b) = true) by (apply Z.leb_le; first [lia | clear - Hsod; div_lia]);
      rewrite H; clear H
  end.
  reflexivity.
Qed.

(** C6, as stated, fails: the format has no sub-second field, so an
    instant that is not a whole second comes back cut to its second. *)
Lemma roundtrip_loses_subsecond :
  ~ (forall t, Pd.TS_MIN <= t <= Pd.TS_MAX ->
               Pd.strptime_csv (Pd.strftime_csv t) = Some t).
Proof.
  intros H. specialize (H 1). unfold Pd.TS_MIN, Pd.TS_MAX in H.
  assert (Hp : Pd.strptime_csv (Pd.strftime_csv 1) = Some 0) by (vm_compute; reflexivity).
  rewrite Hp in H. assert (Some 0 = Some 1) as Heq by (apply H; lia). discriminate Heq.
Qed.

Lemma strptime_strftime_whole_second t :
  whole_second t -> Pd.strptime_csv (Pd.strftime_csv t) = Some t.
Proof.
  intros [[Hlo Hhi] Hmod].
  assert (Ht : t / Pd.NS_PER_SEC * Pd.NS_PER_SEC = t).
  { unfold Pd.NS_PER_SEC in *. clear - Hmod. div_lia. }
  rewrite strptime_strftime_seconds by (rewrite ?Ht; done). by rewrite Ht.
Qed.

(** C6, amended. For every timestamp within the [Timestamp] bounds that is
    a whole number of seconds, the text the Segment Writer prints parses,
    under the strict format of the Resolver, to the same UTC instant. *)
Theorem strptime_strftime_roundtrip t :
  Pd.TS_MIN <= t <= Pd.TS_MAX ->
  t mod Pd.NS_PER_SEC = 0 ->
  Pd.strptime_csv (Pd.strftime_csv t) = Some t.
Proof. intros Hb Hm. by apply strptime_strftime_whole_second. Qed.

Lemma strptime_strftime_roundtrip_witness :
  Pd.strptime_csv (Pd.strftime_csv 1717430340000000000) = Some 1717430340000000000.
Proof.
  apply (strptime_strftime_roundtrip 1717430340000000000).
  - unfold Pd.TS_MIN, Pd.TS_MAX. lia.
  - reflexivity.
Defined.

(** ** File names and their order *)

Lemma string_length_app a b :
  String.length (a +:+ b) = (String.length a + String.length b)%nat.
Proof. induction a as [|c a IH]; simpl; [done|]. by rewrite IH. Qed.

Lemma string_app_inj_r a b c : a +:+ c = b +:+ c -> a = b.
Proof.
  revert b. induction a as [|x a IH]; intros [|y b] H.
  - done.
  - apply (f_equal String.length) in H.
    rewrite !string_length_app in H. simpl in H. lia.
  - apply (f_equal String.length) in H.
    rewrite !string_length_app in H. simpl in H. lia.
  - change (String x (a +:+ c) = String y (b +:+ c)) in H.
    injection H as -> H. f_equal. by apply IH.
Qed.

Lemma data_filename_inj i j : data_filename i = data_filename j -> i = j.
Proof.
  unfold data_filename. intros H.
  apply (inj (String.app "data_")) in H.
  apply string_app_inj_r in H.
  apply (f_equal NilEmpty.uint_of_string) in H.
  rewrite !NilEmpty.usu in H. injection H as H.
  by apply DecimalNat.Unsigned.to_uint_inj.
Qed.

(** ** Directories of segment lists *)

Lemma lookup_dir_from segs : forall i j,
  dir_from i segs !! data_filename j
  = if decide (i <= j)%nat then segs !! (j - i)%nat else None.
Proof.
  induction segs as [|f segs IH]; intros i j; cbn [dir_from].
  - rewrite lookup_empty. by case_decide.
  - destruct (decide (i = j)) as [->|Hne].
    + rewrite lookup_insert_eq, decide_True by lia. by rewrite Nat.sub_diag.
    + rewrite lookup_insert_ne by (intros ?%data_filename_inj; done).
      rewrite IH. repeat case_decide; try lia; [|done].
      by replace (j - i)%nat with (S (j - S i)) by lia.
Qed.

Lemma lookup_dir_of segs j : dir_of segs !! data_filename j = segs !! j.
Proof.
  unfold dir_of. rewrite lookup_dir_from, decide_True by lia.
  by rewrite Nat.sub_0_r.
Qed.

Lemma dir_from_names segs : forall i name,
  is_Some (dir_from i segs !! name) ->
  exists j, name = data_filename j /\ (i <= j < i + length segs)%nat.
Proof.
  induction segs as [|f segs IH]; intros i name; cbn [dir_from].
  - rewrite lookup_empty. by intros [? ?].
  - destruct (decide (data_filename i = name)) as [<-|Hne].
    + intros _. exists i. simpl. split; [done|lia].
    + rewrite lookup_insert_ne by done. intros [j [-> Hj]]%IH.
      exists j. simpl. split; [done|lia].
Qed.

Lemma size_dir_from segs : forall i, size (dir_from i segs) = length segs.
Proof.
  induction segs as [|f segs IH]; intros i; cbn [dir_from].
  - apply map_size_empty.
  - rewrite map_size_insert_None, IH; [done|].
    rewrite lookup_dir_from, decide_False by lia. done.
Qed.

Lemma dir_from_snoc segs f : forall i,
  dir_from i (segs ++ [f]) = <[data_filename (i + length segs) := f]> (dir_from i segs).
Proof.
  induction segs as [|g segs IH]; intros i; cbn [dir_from app length].
  - by rewrite Nat.add_0_r.
  - rewrite IH, insert_insert_ne by (intros ?%data_filename_inj; lia).
    by replace (S i + length segs)%nat with (i + S (length segs))%nat by lia.
Qed.

Lemma dir_from_update segs f : forall i k,
  (k < length segs)%nat ->
  dir_from i (<[k := f]> segs) = <[data_filename (i + k) := f]> (dir_from i segs).
Proof.
  induction segs as [|g segs IH]; intros i k Hk; [simpl in Hk; lia|].
  destruct k as [|k]; cbn [dir_from].
  - cbn. by rewrite Nat.add_0_r, insert_insert_eq.
  - cbn [insert list_insert dir_from]. rewrite IH by (simpl in Hk; lia).
    rewrite insert_insert_ne by (intros ?%data_filename_inj; lia).
    by replace (S i + k)%nat with (i + S k)%nat by lia.
Qed.

(** Writing to a segment of a Ticker Directory, or to the next ordinal,
    gives a Ticker Directory again. *)
Lemma insert_dir_of segs i lines :
  (i <= length segs)%nat ->
  <[data_filename i := default [] (dir_of segs !! data_filename i) ++ lines]> (dir_of segs)
  = dir_of (append_at segs i lines).
Proof.
  intros Hi. unfold append_at. rewrite lookup_dir_of. unfold dir_of.
  destruct (segs !! i) as [f|] eqn:Hf; simpl.
  - apply lookup_lt_Some in Hf. by rewrite dir_from_update.
  - apply lookup_ge_None in Hf. rewrite dir_from_snoc. simpl.
    by replace i with (length segs) by lia.
Qed.

Lemma next_available_from_dir_of segs : forall probes i,
  (i + probes = length segs)%nat ->
  next_available_from probes i (dir_of segs) = data_filename (length segs).
Proof.
  induction probes as [|p IH]; intros i Hi; cbn [next_available_from].
  - by replace i with (length segs) by lia.
  - unfold Os.path_exists. rewrite lookup_dir_of.
    destruct (segs !! i) as [f|] eqn:Hf.
    + rewrite bool_decide_eq_true_2 by eauto. apply IH. lia.
    + apply lookup_ge_None in Hf. lia.
Qed.

(** In a Ticker Directory the next available name has the ordinal after
    the highest one. *)
Lemma next_available_dir_of segs :
  get_next_available_filename (dir_of segs) = data_filename (length segs).
Proof.
  unfold get_next_available_filename, dir_of. rewrite size_dir_from.
  by apply next_available_from_dir_of.
Qed.

Lemma file_bytes_pos (f : file) : f <> [] -> 0 < file_bytes f.
Proof.
  assert (Hline : forall l, 0 < line_bytes l).
  { intros [c cs]. unfold line_bytes, strlen. cbn [index_cell data_cells].
    assert (0 <= foldr (fun c acc => 1 + Z.of_nat (String.length c) + acc) 0 cs).
    { induction cs; cbn [fold_right]; lia. }
    lia. }
  assert (Hnn : forall g, 0 <= file_bytes g).
  { induction g as [|l g IH]; cbn [file_bytes fold_right]; [lia|].
    specialize (Hline l). fold (file_bytes g). lia. }
  destruct f as [|l f]; [done|]. intros _. cbn [file_bytes fold_right].
  specialize (Hline l). specialize (Hnn f). fold (file_bytes f). lia.
Qed.

Lemma file_bytes_zero (f : file) : file_bytes f = 0 <-> f = [].
Proof.
  split; [|by intros ->].
  destruct f as [|l f]; [done|]. intros H.
  pose proof (file_bytes_pos (l :: f) ltac:(done)). lia.
Qed.

Lemma current_size_dir_of segs i :
  current_size (dir_of segs) (data_filename i)
  = match segs !! i with Some f => file_bytes f | None => 0 end.
Proof.
  unfold current_size, Os.path_exists, Os.getsize. rewrite lookup_dir_of.
  destruct (segs !! i); [|done]. by rewrite bool_decide_eq_true_2 by eauto.
Qed.

Lemma header_due_dir_of segs i :
  header_due (dir_of segs) (data_filename i)
  = match segs !! i with Some f => bool_decide (f = []) | None => true end.
Proof.
  unfold header_due. rewrite current_size_dir_of.
  unfold Os.path_exists. rewrite lookup_dir_of.
  destruct (segs !! i) as [f|].
  - rewrite bool_decide_eq_true_2 by eauto. cbn [negb orb].
    destruct f as [|l f]; [done|].
    rewrite bool_decide_eq_false_2 by done.
    pose proof (file_bytes_pos (l :: f) ltac:(done)). apply Z.eqb_neq. lia.
  - by rewrite bool_decide_eq_false_2 by (intros [? ?]; done).
Qed.

(** ** One iteration of the writer on a Ticker Directory *)

Lemma to_csv_dir_of segs j write_header hdr chunk :
  (j <= length segs)%nat ->
  to_csv (dir_of segs) (data_filename j) write_header hdr chunk
  = dir_of (append_at segs j (header_if write_header hdr ++ map row_line chunk)).
Proof. intros Hj. unfold to_csv. by rewrite <- insert_dir_of. Qed.

Lemma length_append_at segs j lines :
  length (append_at segs j lines)
  = match segs !! j with Some _ => length segs | None => S (length segs) end.
Proof.
  unfold append_at. destruct (segs !! j).
  - by rewrite length_insert.
  - rewrite length_app. simpl. lia.
Qed.

(** The rollover check on a Ticker Directory. *)
Lemma rollover_dir_of segs i n_rows :
  rollover (dir_of segs) (data_filename i) n_rows
  = let size := match segs !! i with Some f => file_bytes f | None => 0 end in
    if (0 <? size) && (MAX_FILE_SIZE_BYTES <? size + n_rows * estimated_bytes_per_row)
    then (data_filename (length segs), true, 0)
    else (data_filename i,
          match segs !! i with Some f => bool_decide (f = []) | None => true end,
          size).
Proof.
  unfold rollover. rewrite current_size_dir_of, header_due_dir_of, next_available_dir_of.
  done.
Qed.

Lemma num_rows_for_chunk_value : num_rows_for_chunk = 314572.
Proof. reflexivity. Qed.

(** What one iteration does to a Ticker Directory whose target is the last
    segment or the next ordinal: a non-empty chunk goes to segment [j],
    which is the target or a new last segment, with a header exactly when
    that segment is new or empty; rows left over wait for a new segment. *)
Lemma write_step_dir_of segs i hdr rows_to_write :
  rows_to_write <> [] -> (i <= length segs)%nat ->
  exists j chunk rest target' write_header segs',
    write_step hdr (WState (dir_of segs) (data_filename i) rows_to_write)
    = WState (dir_of segs') target' rest
    /\ segs' = append_at segs j (header_if write_header hdr ++ map row_line chunk)
    /\ write_header
       = match segs !! j with Some f => bool_decide (f = []) | None => true end
    /\ rows_to_write = chunk ++ rest /\ chunk <> []
    /\ (j = i \/ j = length segs)
    /\ (rest <> [] -> target' = data_filename (length segs')).
Proof.
  intros Hne Hi. unfold write_step. cbn [w_dir w_target w_rows].
  rewrite rollover_dir_of. cbv zeta.
  set (size := match segs !! i with Some f => file_bytes f | None => 0 end).
  set (n_rows := Z.of_nat (length rows_to_write)).
  assert (Hk : Z.to_nat num_rows_for_chunk <> O).
  { rewrite num_rows_for_chunk_value. lia. }
  set (k := Z.to_nat num_rows_for_chunk) in *. clearbody k.
  assert (Htake : take k rows_to_write <> []).
  { destruct rows_to_write, k; done. }
  destruct ((0 <? size) && _) eqn:Hroll.
  - (* rollover: the write goes to a new last segment *)
    assert (Hnew : segs !! length segs = None) by (apply lookup_ge_None; lia).
    rewrite Z.eqb_refl, andb_true_r.
    destruct ((1 <? n_rows) && _) eqn:Hsplit.
    + exists (length segs), (take k rows_to_write),
        (drop k rows_to_write).
      eexists _, true, _. rewrite to_csv_dir_of by lia.
      split; [reflexivity|]. split; [reflexivity|]. rewrite Hnew.
      split; [done|]. split; [by rewrite take_drop|]. split; [done|].
      split; [by right|]. intros Hrest.
      destruct (drop _ rows_to_write) eqn:Hd; [done|].
      by rewrite next_available_dir_of.
    + exists (length segs), rows_to_write, []. eexists _, true, _.
      rewrite to_csv_dir_of by lia.
      split; [reflexivity|]. split; [reflexivity|]. rewrite Hnew.
      split; [done|]. split; [by rewrite app_nil_r|]. split; [done|].
      split; [by right|]. done.
  - destruct ((1 <? n_rows) && (MAX_FILE_SIZE_BYTES <? n_rows * estimated_bytes_per_row)
              && (size =? 0)) eqn:Hsplit.
    + exists i, (take k rows_to_write),
        (drop k rows_to_write).
      eexists _, _, _. rewrite to_csv_dir_of by lia.
      split; [reflexivity|]. split; [reflexivity|].
      split; [done|]. split; [by rewrite take_drop|]. split; [done|].
      split; [by left|]. intros Hrest.
      destruct (drop _ rows_to_write) eqn:Hd; [done|].
      by rewrite next_available_dir_of.
    + exists i, rows_to_write, []. eexists _, _, _.
      rewrite to_csv_dir_of by lia.
      split; [reflexivity|]. split; [reflexivity|].
      split; [done|]. split; [by rewrite app_nil_r|]. split; [done|].
      split; [by left|]. done.
Qed.

Lemma stored_lines_app a b : stored_lines (a ++ b) = stored_lines a ++ stored_lines b.
Proof. unfold stored_lines. by rewrite map_app, concat_app. Qed.

Lemma tail_append_header (f : file) hdr (lines : list line) :
  tail (f ++ header_if (bool_decide (f = [])) hdr ++ lines) = tail f ++ lines.
Proof. destruct f as [|l f]; [done|]. by rewrite bool_decide_eq_false_2. Qed.

(** Appending to the last segment, or opening the next one, puts the new
    data lines at the end of the stored lines. *)
Lemma stored_lines_append_at segs j hdr lines :
  (length segs <= S j)%nat ->
  stored_lines
    (append_at segs j
       (header_if match segs !! j with Some f => bool_decide (f = []) | None => true end hdr
        ++ lines))
  = stored_lines segs ++ lines.
Proof.
  intros Hj. unfold append_at. destruct (segs !! j) as [f|] eqn:Hf.
  - rewrite insert_take_drop by (by eapply lookup_lt_Some).
    pose proof (take_drop_middle segs j f Hf) as Hmid.
    rewrite (drop_ge segs (S j)) in * by lia.
    remember (take j segs) as init eqn:Hinit. clear Hinit. rewrite <- Hmid.
    rewrite !stored_lines_app, <- app_assoc. f_equal.
    unfold stored_lines. cbn [map concat].
    by rewrite !app_nil_r, tail_append_header.
  - rewrite stored_lines_app. unfold stored_lines at 2. cbn [map concat header_if app tail].
    by rewrite app_nil_r.
Qed.

Lemma take_append_at segs j lines :
  (j <= length segs)%nat -> take j (append_at segs j lines) = take j segs.
Proof.
  intros Hj. unfold append_at. destruct (segs !! j) as [f|] eqn:Hf.
  - by rewrite take_insert_ge by lia.
  - apply lookup_ge_None in Hf. assert (j = length segs) as -> by lia.
    by rewrite take_app_length, take_ge.
Qed.

(** The rows the writer is given in the runs of C2: whole seconds, one
    cell per column. *)
Lemma written_line_rows ncols (rs : list row) :
  Forall (fun r => resumable (ts r) /\ length (cells r) = ncols) rs ->
  Forall (written_line ncols) (map row_line rs).
Proof.
  induction 1 as [|r rs [Hws Hlen] _ IH]; cbn [map]; constructor; [|done].
  split; [done|]. by exists (ts r).
Qed.

Lemma seg_ok_append_at ncols segs j hdr lines :
  length (data_cells hdr) = ncols -> ncols <> O -> lines <> [] ->
  Forall (written_line ncols) lines ->
  Forall (seg_ok ncols) segs ->
  Forall (seg_ok ncols)
    (append_at segs j
       (header_if match segs !! j with Some f => bool_decide (f = []) | None => true end hdr
        ++ lines)).
Proof.
  intros Hhdr Hn Hlines Hw Hok. unfold append_at. destruct (segs !! j) as [f|] eqn:Hf.
  - apply Forall_insert; [done|].
    pose proof (Forall_lookup_1 _ _ _ _ Hok Hf) as (h & l & body & -> & Hh & _ & Hb).
    rewrite bool_decide_eq_false_2 by done. exists h, l, (body ++ lines).
    split; [done|]. split; [done|]. split; [done|].
    cbn [header_if app]. rewrite app_comm_cons. by apply Forall_app.
  - apply Forall_app. split; [done|]. apply Forall_singleton.
    destruct lines as [|l body]; [done|]. by exists hdr, l, body.
Qed.

(** ** The write loop on a Ticker Directory *)

Lemma write_loop_nil fuel hdr d target :
  write_loop fuel hdr (WState d target []) = WState d target [].
Proof. by destruct fuel. Qed.

(** Started on the last segment or on the next ordinal, with fuel for
    every row, the loop ends with no row left and a Ticker Directory that
    holds the stored lines of before followed by the lines of the rows, with
    the segments below the target untouched. *)
Lemma write_loop_dir_of hdr : forall fuel rows_to_write segs i,
  (length rows_to_write <= fuel)%nat ->
  (i <= length segs)%nat -> (length segs <= S i)%nat ->
  exists segs' target',
    write_loop fuel hdr (WState (dir_of segs) (data_filename i) rows_to_write)
    = WState (dir_of segs') target' []
    /\ stored_lines segs' = stored_lines segs ++ map row_line rows_to_write
    /\ take i segs' = take i segs
    /\ (length segs <= length segs')%nat
    /\ (forall ncols,
          length (data_cells hdr) = ncols -> ncols <> O ->
          Forall (fun r => resumable (ts r) /\ length (cells r) = ncols) rows_to_write ->
          Forall (seg_ok ncols) segs -> Forall (seg_ok ncols) segs').
Proof.
  induction fuel as [|fuel IH]; intros rows segs i Hfuel Hi Hn.
  { destruct rows; [|simpl in Hfuel; lia]. exists segs, (data_filename i).
    by rewrite app_nil_r. }
  destruct rows as [|r rows].
  { exists segs, (data_filename i). by rewrite app_nil_r. }
  cbn [write_loop w_rows].
  destruct (write_step_dir_of segs i hdr (r :: rows) ltac:(done) Hi)
    as (j & chunk & rest & target' & wh & segs1 & -> & Hsegs1 & -> & Hrows & Hchunk & Hj & Hrest).
  assert (Hj' : (i <= j)%nat /\ (length segs <= S j)%nat) by (destruct Hj; lia).
  assert (Hstored : stored_lines segs1 = stored_lines segs ++ map row_line chunk).
  { subst segs1. apply stored_lines_append_at. lia. }
  assert (Htake : take i segs1 = take i segs).
  { subst segs1. replace i with (i `min` j)%nat at 1 by lia.
    rewrite <- take_take, take_append_at, take_take by (destruct Hj; lia). f_equal. lia. }
  assert (Hlen : (length segs <= length segs1)%nat).
  { subst segs1. rewrite length_append_at. destruct (segs !! j); lia. }
  assert (Hok : forall ncols,
            length (data_cells hdr) = ncols -> ncols <> O ->
            Forall (fun r => resumable (ts r) /\ length (cells r) = ncols) chunk ->
            Forall (seg_ok ncols) segs -> Forall (seg_ok ncols) segs1).
  { intros ncols ????. subst segs1. apply seg_ok_append_at; [done|done| | |done].
    - by destruct chunk.
    - by apply written_line_rows. }
  destruct rest as [|r' rest].
  { exists segs1, target'. rewrite write_loop_nil, app_nil_r in *. by subst. }
  rewrite (Hrest ltac:(done)).
  assert (Hshort : (length (r' :: rest) <= fuel)%nat).
  { apply (f_equal length) in Hrows. rewrite length_app in Hrows.
    destruct chunk; [done|]. simpl in *. lia. }
  destruct (IH (r' :: rest) segs1 (length segs1) Hshort ltac:(lia) ltac:(lia))
    as (segs2 & t2 & -> & Hst2 & Htk2 & Hlen2 & Hok2).
  exists segs2, t2. split; [done|]. split.
  { rewrite Hst2, Hstored, Hrows, map_app. by rewrite app_assoc. }
  split.
  { rewrite <- Htake. replace i with (i `min` length segs1)%nat at 1 by lia.
    rewrite <- take_take, Htk2, take_take. f_equal. lia. }
  split; [lia|].
  intros ncols Hh Hncols Hall Hsegs. rewrite Hrows in Hall.
  apply Forall_app in Hall as [Hc Hr]. eauto.
Qed.

(** ** Sorting and the last element *)

Lemma StronglySorted_last_max {A} (R : relation A) `{!Reflexive R} (l : list A) x :
  StronglySorted R l -> last l = Some x -> forall y, y ∈ l -> R y x.
Proof.
  induction 1 as [|a l Hs IH Ha]; [done|].
  intros Hlast y Hy. destruct l as [|b l].
  - simpl in Hlast. simplify_eq. by apply list_elem_of_singleton in Hy as ->.
  - rewrite last_cons_cons in Hlast. apply elem_of_cons in Hy as [->|Hy].
    + rewrite Forall_forall in Ha. apply Ha. by apply last_Some_elem_of.
    + by apply IH.
Qed.

Lemma StronglySorted_filter {A} (R : relation A) (P : A -> Prop)
    `{!forall x, Decision (P x)} (l : list A) :
  StronglySorted R l -> StronglySorted R (filter P l).
Proof.
  induction 1 as [|a l Hs IH Ha]; [constructor|].
  rewrite filter_cons. case_decide; [|done].
  constructor; [done|]. rewrite Forall_forall in *.
  intros y [_ Hy]%list_elem_of_filter. by apply Ha.
Qed.

(** [sorted(names)[-1]] is the greatest name. *)
Lemma last_sorted_max names m :
  m ∈ names -> (forall x, x ∈ names -> String.le x m) ->
  last (sorted names) = Some m.
Proof.
  intros Hm Hmax. unfold sorted.
  pose proof (merge_sort_Permutation String.le names) as Hperm.
  pose proof (StronglySorted_merge_sort String.le names) as Hsorted.
  destruct (last (merge_sort String.le names)) as [x|] eqn:Hlast.
  - f_equal. apply (anti_symm String.le).
    + apply Hmax. rewrite <- Hperm. by apply last_Some_elem_of.
    + eapply StronglySorted_last_max; [apply _|done..|by rewrite Hperm].
  - apply last_None in Hlast. rewrite Hlast in Hperm.
    apply Permutation_nil_l in Hperm. subst. by apply elem_of_nil in Hm.
Qed.

(** ** What glob lists *)

Lemma elem_of_glob_csv (d : gmap string file) name :
  name ∈ Os.glob_csv d <-> Os.is_csv name = true /\ is_Some (d !! name).
Proof.
  unfold Os.glob_csv. rewrite list_elem_of_filter, list_elem_of_fmap.
  split.
  - intros [Hcsv [[k v] [-> Hkv%elem_of_map_to_list]]]. eauto.
  - intros [Hcsv [v Hv]]. split; [done|]. exists (name, v).
    split; [done|]. by apply elem_of_map_to_list.
Qed.

Lemma endswith_app suffix a b :
  Os.endswith suffix b = true -> Os.endswith suffix (a +:+ b) = true.
Proof.
  intros Hb. induction a as [|c a IH]; [done|].
  change (String c a +:+ b) with (String c (a +:+ b)).
  cbn [Os.endswith]. rewrite IH. apply orb_true_r.
Qed.

Lemma is_csv_data_filename i : Os.is_csv (data_filename i) = true.
Proof.
  unfold Os.is_csv, data_filename. apply andb_true_iff. split.
  - do 2 apply endswith_app. reflexivity.
  - reflexivity.
Qed.

Lemma elem_of_glob_dir_of segs name :
  name ∈ Os.glob_csv (dir_of segs)
  <-> exists j, name = data_filename j /\ (j < length segs)%nat.
Proof.
  rewrite elem_of_glob_csv. split.
  - intros [_ [j [-> Hj]]%dir_from_names]. exists j. split; [done|lia].
  - intros [j [-> Hj]]. split; [apply is_csv_data_filename|].
    rewrite lookup_dir_of. by apply lookup_lt_is_Some.
Qed.

(** One-digit ordinals sort by number. *)
Lemma data_filename_le i j :
  (i <= j <= 9)%nat -> String.le (data_filename i) (data_filename j).
Proof.
  intros Hij.
  do 10 (destruct i as [|i];
         [do 10 (destruct j as [|j]; [first [lia | by vm_compute]|]); lia|]).
  lia.
Qed.

(** Up to ten segments, the last name in sorted order is the segment of
    the highest ordinal. *)
Lemma last_file_dir_of segs :
  (1 <= length segs <= 10)%nat ->
  last (sorted (Os.glob_csv (dir_of segs))) = Some (data_filename (length segs - 1)).
Proof.
  intros Hn. apply last_sorted_max.
  - apply elem_of_glob_dir_of. exists (length segs - 1)%nat. split; [done|lia].
  - intros x [j [-> Hj]]%elem_of_glob_dir_of. apply data_filename_le. lia.
Qed.

Lemma last_file_dir_of_nil : last (sorted (Os.glob_csv (dir_of []))) = None.
Proof. reflexivity. Qed.

(** ** Which segment the Resolver and the Writer pick *)

(** C1, evaluated on a directory of eleven segments: in sorted order the
    last name is [data_9.csv], not [data_10.csv]; the Resolver reads the
    latest timestamp of [data_9.csv] and the Writer appends to it, while the
    segment of the highest ordinal, [data_10.csv], holds the later bar. *)
Theorem eleven_segments_pick_data_9 (lenient : list string -> list (option Z)) :
  last (sorted (Os.glob_csv (dir_of eleven_segments))) = Some "data_9.csv"
  /\ resolve lenient (dir_of eleven_segments) = Returned (Some (ts (sample_row 9)))
  /\ initial_target (dir_of eleven_segments) = "data_9.csv"
  /\ dir_of eleven_segments !! data_filename 10 = Some (sample_segment 10)
  /\ data_filename 10 = "data_10.csv".
Proof. repeat split; vm_compute; reflexivity. Qed.

(** ** The Timestamp Resolver *)

Lemma dropna_elem_of parsed t : t ∈ dropna parsed <-> Some t ∈ parsed.
Proof.
  unfold dropna. rewrite list_elem_of_omap. split.
  - intros [[x|] [Hx Heq]]; simplify_eq/=. done.
  - intros H. by exists (Some t).
Qed.

Lemma last_merge_sort_max (l : list Z) :
  match last (merge_sort Z.le l) with
  | None => l = []
  | Some t => t ∈ l /\ forall x, x ∈ l -> x <= t
  end.
Proof.
  pose proof (merge_sort_Permutation Z.le l) as Hperm.
  pose proof (StronglySorted_merge_sort Z.le l) as Hsorted.
  destruct (last (merge_sort Z.le l)) as [t|] eqn:Hlast.
  - split.
    + rewrite <- Hperm. by apply last_Some_elem_of.
    + intros x Hx. eapply (StronglySorted_last_max Z.le); [done..|by rewrite Hperm].
  - apply last_None in Hlast. rewrite Hlast in Hperm.
    by apply Permutation_nil_l in Hperm.
Qed.

Lemma resolver_cases
    (read_csv : string -> result dataframe)
    (strict : list string -> option (list (option Z)))
    (lenient : list string -> list (option Z)) (csv_names : list string) :
  exists latest,
    get_latest_timestamp_from_dir read_csv strict lenient csv_names = Returned latest
    /\ (latest = None <->
        last (sorted csv_names) = None
        \/ exists last_file, last (sorted csv_names) = Some last_file
           /\ ((exists e, read_csv last_file = Err e)
               \/ exists df, read_csv last_file = Ok df
                  /\ (df_empty df = true
                      \/ dropna (parsed_index strict lenient (df_index df)) = [])))
    /\ (forall t, latest = Some t ->
        exists last_file df,
          last (sorted csv_names) = Some last_file
          /\ read_csv last_file = Ok df
          /\ t ∈ dropna (parsed_index strict lenient (df_index df))
          /\ forall x, x ∈ dropna (parsed_index strict lenient (df_index df)) -> x <= t).
Proof.
  unfold get_latest_timestamp_from_dir, resolver_try.
  destruct (last (sorted csv_names)) as [last_file|] eqn:Hlast.
  2: { exists None. split; [done|]. split; [tauto|]. done. }
  destruct (read_csv last_file) as [df|e] eqn:Hread.
  2: { exists None. split; [by destruct e|]. split; [|done].
       split; [|done]. intros _. right. exists last_file. eauto. }
  destruct (df_empty df) eqn:Hempty.
  { exists None. split; [done|]. split; [|done].
    split; [|done]. intros _. right. exists last_file. split; [done|]. right. eauto. }
  pose proof (last_merge_sort_max (dropna (parsed_index strict lenient (df_index df)))) as Hmax.
  destruct (last (merge_sort Z.le _)) as [t|] eqn:Hl.
  - exists (Some t). split; [done|]. split.
    + split; [done|]. intros [Hno|(f & Hf & Hcase)]; [congruence|].
      assert (f = last_file) as -> by congruence.
      destruct Hcase as [[e He]|(df' & Hdf & Hcase)]; [congruence|].
      assert (df' = df) as -> by congruence.
      destruct Hcase as [He|Hnil]; [congruence|].
      rewrite Hnil in Hmax. destruct Hmax as [Hin _]. by apply elem_of_nil in Hin.
    + intros t' [= <-]. exists last_file, df. tauto.
  - exists None. split; [done|]. split; [|done].
    split; [|done]. intros _. right. exists last_file. split; [done|]. right.
    exists df. split; [done|]. by right.
Qed.

(** C7, evaluated on directories of eleven segments.  In the first the
    segment of the highest ordinal, [data_10.csv], has a header and no row:
    the last segment is empty, yet the Resolver, which reads the last name in
    sorted order, [data_9.csv], returns the timestamp stored there.  In the
    second [data_10.csv] holds the latest bar, and the Resolver returns the
    earlier timestamp of [data_9.csv] instead of it. *)
Theorem resolver_skips_highest_ordinal (lenient : list string -> list (option Z)) :
  data_filename 10 = "data_10.csv"
  /\ size (dir_of eleven_segments_last_without_rows) = 11%nat
  /\ dir_of eleven_segments_last_without_rows !! data_filename 10 = Some [sample_header]
  /\ resolve lenient (dir_of eleven_segments_last_without_rows)
     = Returned (Some (ts (sample_row 9)))
  /\ size (dir_of eleven_segments) = 11%nat
  /\ dir_of eleven_segments !! data_filename 10 = Some (sample_segment 10)
  /\ ts (sample_row 9) < ts (sample_row 10)
  /\ resolve lenient (dir_of eleven_segments) = Returned (Some (ts (sample_row 9))).
Proof. repeat split; vm_compute; reflexivity. Qed.

(** X19. [get_latest_timestamp_from_dir] always returns.  Without a
    [.csv] name it returns "none".  Otherwise it reads the one file whose
    name is last in sorted order, and returns "none" when the read raises
    and when the frame has no column or no row.  Else the rows it considers
    are the strict parse of the index when that parse succeeds and the
    lenient parse when the strict one raises; it returns "none" exactly when
    every row of that parse is [NaT], and otherwise a timestamp of that
    parse that is the greatest of them. *)
Theorem resolver_returns_latest_of_last_file
    (read_csv : string -> result dataframe)
    (strict : list string -> option (list (option Z)))
    (lenient : list string -> list (option Z)) (csv_names : list string) :
  exists latest,
    get_latest_timestamp_from_dir read_csv strict lenient csv_names = Returned latest
    /\ match last (sorted csv_names) with
       | None => latest = None
       | Some last_file =>
           match read_csv last_file with
           | Err _ => latest = None
           | Ok df =>
               let parsed := match strict (df_index df) with
                             | Some instants => instants
                             | None => lenient (df_index df)
                             end in
               if decide (df_columns df = O \/ df_index df = []) then latest = None
               else (latest = None <-> forall x, x ∈ parsed -> x = None)
                    /\ forall t, latest = Some t ->
                         Some t ∈ parsed /\ forall t', Some t' ∈ parsed -> t' <= t
           end
       end.
Proof.
  unfold get_latest_timestamp_from_dir, resolver_try.
  destruct (last (sorted csv_names)) as [last_file|]; [|by exists None].
  destruct (read_csv last_file) as [df|e]; [|exists None; by destruct e].
  unfold df_empty, parsed_index. cbv zeta.
  set (parsed := match strict (df_index df) with
                 | Some instants => instants
                 | None => lenient (df_index df)
                 end).
  case_decide as Hempty.
  { exists None. split; [|done].
    destruct Hempty as [H|H]; rewrite H.
    - by rewrite bool_decide_eq_true_2.
    - by rewrite (bool_decide_eq_true_2 ([] = [])), orb_true_r. }
  rewrite !bool_decide_eq_false_2 by tauto. cbn [orb].
  pose proof (last_merge_sort_max (dropna parsed)) as Hmax.
  destruct (last (merge_sort Z.le (dropna parsed))) as [t|].
  - destruct Hmax as [Hin Hmax]. apply dropna_elem_of in Hin.
    exists (Some t). split; [done|]. split.
    + split; [done|]. intros Hnone. by apply Hnone in Hin.
    + intros ? [= <-]. split; [done|]. intros t' Ht'. by apply Hmax, dropna_elem_of.
  - exists None. split; [done|]. split; [|done]. split; [|done].
    intros _ [x|] Hx; [|done]. apply dropna_elem_of in Hx. rewrite Hmax in Hx.
    by apply elem_of_nil in Hx.
Qed.

(** ** The Reconciler *)

#[local] Instance ts_le_total : Total ts_le.
Proof. intros a b. unfold ts_le. lia. Qed.

#[local] Instance ts_le_trans : Transitive ts_le.
Proof. intros a b c. unfold ts_le. lia. Qed.

Lemma reconcile_sorted_filter (latest : option Z) (data : frame) :
  let out := reconcile latest data in
  tz out = Some "UTC"
  /\ index_name out = index_name data /\ columns out = columns data
  /\ StronglySorted ts_le (rows out)
  /\ rows out ≡ₚ match latest with
                 | Some point => filter (fun r => point < ts r) (rows data)
                 | None => rows data
                 end.
Proof.
  unfold reconcile, sort_index, with_rows, tz_localize_utc, tz_convert_utc.
  destruct latest as [point|]; destruct (tz data); cbn;
    repeat split;
    try (apply StronglySorted_filter);
    try (apply (StronglySorted_merge_sort ts_le));
    try (apply (merge_sort_Permutation ts_le));
    by rewrite (merge_sort_Permutation ts_le).
Qed.

(** C3. The reconciled frame is in UTC and keeps the index name, the
    columns and every instant; its rows are in ascending timestamp order;
    with a Resumption Point they are exactly the fetched rows whose timestamp
    is strictly greater than it (possibly none), and without one all the
    fetched rows. *)
Theorem reconcile_spec (latest : option Z) (data : frame) :
  let out := reconcile latest data in
  tz out = Some "UTC"
  /\ index_name out = index_name data /\ columns out = columns data
  /\ StronglySorted ts_le (rows out)
  /\ rows out ≡ₚ match latest with
                 | Some point => filter (fun r => point < ts r) (rows data)
                 | None => rows data
                 end.
Proof. apply reconcile_sorted_filter. Qed.

(** ** Rollover and the split of an oversized batch *)

Lemma current_size_nonneg (d : gmap string file) target : 0 <= current_size d target.
Proof.
  unfold current_size, Os.getsize. destruct (Os.path_exists d target); [|lia].
  destruct (d !! target) as [f|]; simpl; [|lia].
  destruct f as [|l f]; [simpl; lia|].
  pose proof (file_bytes_pos (l :: f) ltac:(done)). lia.
Qed.

Lemma current_size_exists (d : gmap string file) target :
  0 < current_size d target -> is_Some (d !! target).
Proof.
  unfold current_size, Os.path_exists. case_bool_decide; [done|lia].
Qed.

(** C4. In a Ticker Directory, when the target has nonzero size and that
    size plus the estimate of the batch (150 bytes a row) exceeds the cap,
    the iteration switches to the name with the ordinal after the highest
    one, marks the header as due and tracks size 0; that name is free, and
    the iteration changes the directory by creating that one file, a header
    followed by the rows it writes. *)
Theorem rollover_opens_next_segment segs target hdr rows_to_write :
  rows_to_write <> [] ->
  0 < current_size (dir_of segs) target ->
  MAX_FILE_SIZE_BYTES
    < current_size (dir_of segs) target
      + Z.of_nat (length rows_to_write) * estimated_bytes_per_row ->
  let new_file := data_filename (length segs) in
  let st' := write_step hdr (WState (dir_of segs) target rows_to_write) in
  rollover (dir_of segs) target (Z.of_nat (length rows_to_write)) = (new_file, true, 0)
  /\ segs <> []
  /\ dir_of segs !! new_file = None
  /\ exists chunk,
       chunk <> [] /\ rows_to_write = chunk ++ w_rows st'
       /\ w_dir st' = <[new_file := hdr :: map row_line chunk]> (dir_of segs).
Proof.
  intros Hne Hpos Hcap new_file st'.
  assert (Hroll : rollover (dir_of segs) target (Z.of_nat (length rows_to_write))
                  = (new_file, true, 0)).
  { unfold rollover. rewrite next_available_dir_of.
    destruct (Z.ltb_spec 0 (current_size (dir_of segs) target)); [|lia].
    destruct (Z.ltb_spec MAX_FILE_SIZE_BYTES
                (current_size (dir_of segs) target
                 + Z.of_nat (length rows_to_write) * estimated_bytes_per_row)); [|lia].
    done. }
  assert (Hfree : dir_of segs !! new_file = None).
  { subst new_file. rewrite lookup_dir_of. by apply lookup_ge_None. }
  split; [done|]. split.
  { apply current_size_exists in Hpos as [f Hf]. intros ->. unfold dir_of in Hf.
    simpl in Hf. by rewrite lookup_empty in Hf. }
  split; [done|].
  assert (Hk : Z.to_nat num_rows_for_chunk <> O).
  { rewrite num_rows_for_chunk_value. lia. }
  subst st'. unfold write_step. cbn [w_dir w_target w_rows]. rewrite Hroll.
  set (k := Z.to_nat num_rows_for_chunk) in *. clearbody k.
  unfold to_csv. rewrite Hfree. cbn [default app].
  destruct (_ && _ && _).
  - exists (take k rows_to_write). cbn [w_dir w_rows].
    split; [by destruct rows_to_write, k|]. by rewrite take_drop.
  - exists rows_to_write. cbn [w_dir w_rows]. by rewrite app_nil_r.
Qed.

Lemma rollover_opens_next_segment_witness :
  let segs := [sample_segment 0] in
  let rows_to_write := replicate (Z.to_nat 349525) (sample_row 1) in
  let new_file := data_filename (length segs) in
  let st' := write_step sample_header
               (WState (dir_of segs) (data_filename 0) rows_to_write) in
  rollover (dir_of segs) (data_filename 0) (Z.of_nat (length rows_to_write))
    = (new_file, true, 0)
  /\ segs <> []
  /\ dir_of segs !! new_file = None
  /\ exists chunk,
       chunk <> [] /\ rows_to_write = chunk ++ w_rows st'
       /\ w_dir st' = <[new_file := sample_header :: map row_line chunk]> (dir_of segs).
Proof.
  apply (rollover_opens_next_segment [sample_segment 0] (data_filename 0) sample_header
           (replicate (Z.to_nat 349525) (sample_row 1))).
  - intros H. apply (f_equal length) in H. rewrite length_replicate in H. simpl in H. lia.
  - rewrite current_size_dir_of. vm_compute. reflexivity.
  - rewrite current_size_dir_of, length_replicate, Z2Nat.id by lia. vm_compute. reflexivity.
Defined.

Lemma stored_lines_append_at_perm segs j hdr lines :
  stored_lines
    (append_at segs j
       (header_if match segs !! j with Some f => bool_decide (f = []) | None => true end hdr
        ++ lines))
  ≡ₚ stored_lines segs ++ lines.
Proof.
  unfold append_at. destruct (segs !! j) as [f|] eqn:Hf.
  - rewrite insert_take_drop by (by eapply lookup_lt_Some).
    rewrite <- (take_drop_middle segs j f Hf) at 3.
    rewrite !stored_lines_app.
    change (stored_lines (?g :: ?b)) with (tail g ++ stored_lines b).
    rewrite tail_append_header, <- !app_assoc.
    do 2 f_equiv. apply Permutation_app_comm.
  - rewrite stored_lines_app. unfold stored_lines at 2. cbn [map concat header_if app tail].
    by rewrite app_nil_r.
Qed.

(** From any segment of a Ticker Directory as target, the loop ends with
    no row left, and the stored lines are those of before and one line per
    row. *)
Lemma write_loop_dir_of_perm hdr fuel rows_to_write segs i :
  (length rows_to_write <= fuel)%nat -> (i <= length segs)%nat ->
  exists segs' target',
    write_loop fuel hdr (WState (dir_of segs) (data_filename i) rows_to_write)
    = WState (dir_of segs') target' []
    /\ stored_lines segs' ≡ₚ stored_lines segs ++ map row_line rows_to_write.
Proof.
  intros Hfuel Hi. destruct rows_to_write as [|r rows].
  { exists segs, (data_filename i). by rewrite write_loop_nil, app_nil_r. }
  destruct fuel as [|fuel]; [simpl in Hfuel; lia|].
  cbn [write_loop w_rows].
  destruct (write_step_dir_of segs i hdr (r :: rows) ltac:(done) Hi)
    as (j & chunk & rest & target' & wh & segs1 & -> & Hsegs1 & -> & Hrows & Hchunk & Hj & Hrest).
  assert (Hstored : stored_lines segs1 ≡ₚ stored_lines segs ++ map row_line chunk).
  { subst segs1. apply stored_lines_append_at_perm. }
  destruct rest as [|r' rest].
  { exists segs1, target'. rewrite write_loop_nil, app_nil_r in *. by subst. }
  rewrite (Hrest ltac:(done)).
  assert (Hshort : (length (r' :: rest) <= fuel)%nat).
  { apply (f_equal length) in Hrows. rewrite length_app in Hrows.
    destruct chunk; [done|]. simpl in *. lia. }
  destruct (write_loop_dir_of hdr fuel (r' :: rest) segs1 (length segs1)
              Hshort ltac:(lia) ltac:(lia))
    as (segs2 & t2 & -> & Hst2 & _).
  exists segs2, t2. split; [done|].
  by rewrite Hst2, Hstored, Hrows, map_app, app_assoc.
Qed.

(** C5. In a Ticker Directory, when the batch has more than one row and
    its estimate alone exceeds the cap, the target the iteration writes to is
    new or empty: it is the target the iteration starts with when that one
    is missing or empty, and otherwise the segment of the next ordinal, which
    the rollover check of the same iteration opens in place of the non-empty
    target.  The iteration writes the header and the first
    [max(1, floor(cap / 150 * 0.90))] = 314572 rows to it, keeps the other
    rows, of which there are some, and moves the target to the next free
    ordinal.  The loop, run on the whole batch, ends with no row left and
    one stored line per row of the batch besides the lines of before; on the
    last segment or the next ordinal they follow the lines of before in
    batch order. *)
Theorem oversize_batch_is_split segs i hdr rows_to_write :
  (i <= length segs)%nat ->
  1 < Z.of_nat (length rows_to_write) ->
  MAX_FILE_SIZE_BYTES < Z.of_nat (length rows_to_write) * estimated_bytes_per_row ->
  let st := WState (dir_of segs) (data_filename i) rows_to_write in
  let k := Z.to_nat num_rows_for_chunk in
  let j := if decide (current_size (dir_of segs) (data_filename i) = 0)
           then i else length segs in
  num_rows_for_chunk = Z.max 1 (MAX_FILE_SIZE_BYTES * 90 / (150 * 100))
  /\ num_rows_for_chunk = 314572
  /\ rollover (dir_of segs) (data_filename i) (Z.of_nat (length rows_to_write))
     = (data_filename j, true, 0)
  /\ (exists segs1,
        write_step hdr st
        = WState (dir_of segs1) (data_filename (length segs1)) (drop k rows_to_write)
        /\ dir_of segs1
           = <[data_filename j := hdr :: map row_line (take k rows_to_write)]> (dir_of segs)
        /\ drop k rows_to_write <> []
        /\ dir_of segs1 !! data_filename (length segs1) = None)
  /\ (exists segs' target',
        write_loop (length rows_to_write) hdr st = WState (dir_of segs') target' []
        /\ stored_lines segs' ≡ₚ stored_lines segs ++ map row_line rows_to_write
        /\ ((length segs <= S i)%nat ->
            stored_lines segs' = stored_lines segs ++ map row_line rows_to_write)).
Proof.
  intros Hi Hmany Hbig st k j.
  assert (Hj : (j <= length segs)%nat) by (subst j; case_decide; lia).
  assert (Hfile : default [] (dir_of segs !! data_filename j) = []).
  { subst j. case_decide as Hsize.
    - rewrite current_size_dir_of in Hsize. rewrite lookup_dir_of.
      destruct (segs !! i) as [f|]; [|done]. simpl. by apply file_bytes_zero.
    - rewrite lookup_dir_of, (lookup_ge_None_2 segs (length segs)); [done|lia]. }
  assert (Hroll : rollover (dir_of segs) (data_filename i) (Z.of_nat (length rows_to_write))
                  = (data_filename j, true, 0)).
  { unfold rollover, header_due. subst j. case_decide as Hsize.
    - rewrite Hsize. cbn [Z.ltb Z.compare andb Z.eqb]. by rewrite orb_true_r.
    - pose proof (current_size_nonneg (dir_of segs) (data_filename i)).
      destruct (Z.ltb_spec 0 (current_size (dir_of segs) (data_filename i))); [|lia].
      destruct (Z.ltb_spec MAX_FILE_SIZE_BYTES
                  (current_size (dir_of segs) (data_filename i)
                   + Z.of_nat (length rows_to_write) * estimated_bytes_per_row)); [|lia].
      cbn [andb]. by rewrite next_available_dir_of. }
  split; [done|]. split; [done|]. split; [done|]. split.
  - subst st k. unfold write_step. cbn [w_dir w_target w_rows]. rewrite Hroll.
    assert (Hk : Z.to_nat num_rows_for_chunk = Z.to_nat 314572) by done.
    assert (Hlen : (Z.to_nat num_rows_for_chunk < length rows_to_write)%nat).
    { rewrite Hk. unfold MAX_FILE_SIZE_BYTES, MAX_FILE_SIZE_MB, estimated_bytes_per_row in Hbig.
      lia. }
    set (k := Z.to_nat num_rows_for_chunk) in *. clearbody k.
    assert (Hrest : drop k rows_to_write <> []).
    { intros Hd. apply (f_equal length) in Hd. rewrite length_drop in Hd. simpl in Hd. lia. }
    destruct (Z.ltb_spec 1 (Z.of_nat (length rows_to_write))); [|lia].
    destruct (Z.ltb_spec MAX_FILE_SIZE_BYTES
                (Z.of_nat (length rows_to_write) * estimated_bytes_per_row)); [|lia].
    cbn [andb Z.eqb].
    destruct (drop k rows_to_write) as [|r' rest] eqn:Hd; [done|].
    rewrite to_csv_dir_of by done.
    eexists. rewrite next_available_dir_of. split; [reflexivity|].
    split.
    { rewrite <- to_csv_dir_of by done. unfold to_csv. by rewrite Hfile. }
    split; [done|].
    rewrite lookup_dir_of. by apply lookup_ge_None.
  - destruct (write_loop_dir_of_perm hdr (length rows_to_write) rows_to_write segs i
                ltac:(done) Hi) as (segs' & target' & Hloop & Hperm).
    exists segs', target'. split; [done|]. split; [done|].
    intros Hlast.
    destruct (write_loop_dir_of hdr (length rows_to_write) rows_to_write segs i
                ltac:(done) Hi Hlast) as (segs2 & t2 & Hloop2 & Hst & _).
    subst st. rewrite Hloop in Hloop2. injection Hloop2 as Hd _.
    assert (segs' = segs2) as ->; [|done].
    apply list_eq. intros n. by rewrite <- !lookup_dir_of, Hd.
Qed.

Lemma oversize_batch_is_split_witness :
  let segs : list file := [sample_segment 0] in
  let rows_to_write := replicate (Z.to_nat 349526) (sample_row 1) in
  let st := WState (dir_of segs) (data_filename 0) rows_to_write in
  let k := Z.to_nat num_rows_for_chunk in
  0 < current_size (dir_of segs) (data_filename 0)
  /\ num_rows_for_chunk = Z.max 1 (MAX_FILE_SIZE_BYTES * 90 / (150 * 100))
  /\ num_rows_for_chunk = 314572
  /\ rollover (dir_of segs) (data_filename 0) (Z.of_nat (length rows_to_write))
     = (data_filename 1, true, 0)
  /\ (exists segs1,
        write_step sample_header st
        = WState (dir_of segs1) (data_filename (length segs1)) (drop k rows_to_write)
        /\ dir_of segs1
           = <[data_filename 1 := sample_header :: map row_line (take k rows_to_write)]>
               (dir_of segs)
        /\ drop k rows_to_write <> []
        /\ dir_of segs1 !! data_filename (length segs1) = None)
  /\ (exists segs' target',
        write_loop (length rows_to_write) sample_header st
        = WState (dir_of segs') target' []
        /\ stored_lines segs' ≡ₚ stored_lines segs ++ map row_line rows_to_write
        /\ ((length segs <= 1)%nat ->
            stored_lines segs' = stored_lines segs ++ map row_line rows_to_write)).
Proof.
  split; [rewrite current_size_dir_of; vm_compute; reflexivity|].
  pose proof (oversize_batch_is_split [sample_segment 0] 0 sample_header
                (replicate (Z.to_nat 349526) (sample_row 1))) as H.
  cbv zeta in H.
  rewrite decide_False in H by (rewrite current_size_dir_of; vm_compute; discriminate).
  apply H.
  - simpl. lia.
  - rewrite length_replicate, Z2Nat.id by lia. lia.
  - rewrite length_replicate, Z2Nat.id by lia. reflexivity.
Defined.

(** ** download_and_store_data *)

Lemma makedirs_lookup path (st : gmap string (gmap string file)) :
  Os.makedirs path st !! path = Some (default ∅ (st !! path)).
Proof.
  unfold Os.makedirs. destruct (st !! path) eqn:H; [done|].
  by rewrite lookup_insert_eq.
Qed.

Lemma makedirs_lookup_ne path q (st : gmap string (gmap string file)) :
  q <> path -> Os.makedirs path st !! q = st !! q.
Proof.
  intros Hne. unfold Os.makedirs. destruct (st !! path); [done|].
  by rewrite lookup_insert_ne.
Qed.

Section PipelineFacts.

Variable yf_download : string -> Z -> Z -> fetch_result.
Variable lenient : list string -> list (option Z).

Lemma resolve_returns d : exists latest, resolve lenient d = Returned latest.
Proof.
  destruct (resolver_cases (fs_read_csv d) to_datetime_strict lenient (Os.glob_csv d))
    as (latest & H & _). by exists latest.
Qed.


End PipelineFacts.

(** C9, evaluated with the configuration file missing: [parse_config]
    prints its error and returns [None], the entry point prints "Exiting due
    to configuration error." and calls [exit()] without a status, and the
    process ends with status 0.  A file that exists and cannot be read does
    end it with a non-zero status, through the exception, and a file with
    entries lets the run go on. *)
Theorem missing_config_exit_status :
  parse_config CfgMissing = Returned None
  /\ main_startup CfgMissing = inl 0
  /\ main_startup CfgUnreadable = inl 1
  /\ main_startup (CfgLines ["tech: AAPL, MSFT"]) = inr [("tech", ["AAPL"; "MSFT"])].
Proof. repeat split. Qed.


(** ** Stored timestamps *)

Lemma line_timestamps_app a b ta tb :
  line_timestamps a = Some ta -> line_timestamps b = Some tb ->
  line_timestamps (a ++ b) = Some (ta ++ tb).
Proof.
  unfold line_timestamps. rewrite !mapM_Some. apply Forall2_app.
Qed.

Lemma line_timestamps_app_inv a b t :
  line_timestamps (a ++ b) = Some t ->
  exists ta tb, t = ta ++ tb /\ line_timestamps a = Some ta /\ line_timestamps b = Some tb.
Proof.
  unfold line_timestamps. rewrite mapM_Some.
  intros (ta & tb & Ha & Hb & ->)%Forall2_app_inv_l.
  exists ta, tb. by rewrite !mapM_Some.
Qed.

Lemma line_timestamps_rows rs :
  Forall (fun r => whole_second (ts r)) rs ->
  line_timestamps (map row_line rs) = Some (map ts rs).
Proof.
  intros Hok. unfold line_timestamps. apply mapM_Some.
  induction Hok as [|r rs [Hr Hs] _ IH]; [constructor|].
  constructor; [|done]. cbn [row_line index_cell].
  by apply strptime_strftime_whole_second.
Qed.

Lemma na_values_do_not_parse c : c ∈ na_values -> Pd.strptime_csv c = None.
Proof.
  unfold na_values. intros H.
  repeat (apply elem_of_cons in H as [->|H]; [by vm_compute|]).
  by apply elem_of_nil in H.
Qed.

Lemma to_datetime_strict_lines lines tsl :
  line_timestamps lines = Some tsl ->
  to_datetime_strict (map index_cell lines) = Some (map Some tsl).
Proof.
  unfold line_timestamps, to_datetime_strict. rewrite !mapM_Some.
  induction 1 as [|l t lines tsl Hl _ IH]; [constructor|].
  cbn [map]. constructor; [|done]. unfold strict_cell.
  case_bool_decide as Hna.
  - apply na_values_do_not_parse in Hna. congruence.
  - by rewrite Hl.
Qed.

Lemma dropna_Some tsl : dropna (map Some tsl) = tsl.
Proof. unfold dropna. induction tsl; simpl; [done|]. by f_equal. Qed.

Lemma increasing_last_max l m :
  increasing l -> last l = Some m -> forall x, x ∈ l -> x <= m.
Proof.
  intros Hinc Hlast x Hx. apply last_Some in Hlast as [l' ->].
  apply elem_of_app in Hx as [Hx|Hx%list_elem_of_singleton]; [|lia].
  apply Z.lt_le_incl. eapply (StronglySorted_app_1_elem_of Z.lt); [done..|].
  by apply list_elem_of_singleton.
Qed.

Lemma last_sorted_increasing l :
  increasing l -> last (merge_sort Z.le l) = last l.
Proof.
  intros Hinc. pose proof (last_merge_sort_max l) as Hmax.
  destruct (last (merge_sort Z.le l)) as [t|].
  - destruct Hmax as [Hin Hmax]. destruct (last l) as [m|] eqn:Hl.
    + f_equal. apply Z.le_antisymm.
      * by eapply increasing_last_max.
      * apply Hmax. by apply last_Some_elem_of.
    + apply last_None in Hl. subst. by apply elem_of_nil in Hin.
  - by subst.
Qed.

(** ** The Resolver on a Ticker Directory *)

Lemma history_snoc init (h l : line) body tss :
  history (init ++ [h :: l :: body]) = Some tss ->
  exists ta tsf t0,
    tss = ta ++ t0 :: tsf /\ history init = Some ta
    /\ line_timestamps (l :: body) = Some (t0 :: tsf).
Proof.
  unfold history. rewrite stored_lines_app.
  intros (ta & tb & -> & Ha & Hb)%line_timestamps_app_inv.
  unfold stored_lines in Hb. cbn [map concat tail] in Hb. rewrite app_nil_r in Hb.
  destruct tb as [|t0 tsf].
  { apply mapM_Some, Forall2_length in Hb. done. }
  by exists ta, tsf, t0.
Qed.

(** Reading a segment the writer left: no line is wider than the
    header, so the parser returns the frame. *)
Lemma fs_read_csv_seg_ok ncols (d : gmap string file) name f :
  d !! name = Some f -> seg_ok ncols f ->
  fs_read_csv d name = Ok (DataFrame ncols (map index_cell (tail f))).
Proof.
  intros Hf (h & l & body & -> & Hh & _ & Hall). unfold fs_read_csv. rewrite Hf.
  assert (Hw : Forall (fun x => fields x = fields h) (l :: body)).
  { eapply Forall_impl; [exact Hall|]. intros x [Hx _]. unfold fields. congruence. }
  apply Forall_cons in Hw as [Hl Hb]. rewrite Hl, Nat.sub_diag, Nat.max_id.
  rewrite bool_decide_eq_false_2 by lia.
  rewrite bool_decide_eq_false_2.
  2: { intros (x & Hx & Hlt)%Exists_exists. rewrite Forall_forall in Hb.
       specialize (Hb x Hx). lia. }
  cbn [orb tail]. by rewrite Nat.add_0_r, Hh.
Qed.

(** On up to ten segments as the writer leaves them whose stored
    timestamps increase, the Resolver returns the last stored timestamp, and
    "none" when nothing is stored. *)
Lemma resolve_dir_of lenient ncols segs tss :
  Forall (seg_ok ncols) segs -> (length segs <= 10)%nat ->
  history segs = Some tss -> increasing tss ->
  resolve lenient (dir_of segs) = Returned (last tss).
Proof.
  intros Hok Hn Hhist Hinc. unfold resolve, get_latest_timestamp_from_dir.
  destruct segs as [|f0 segs0] using rev_ind.
  { rewrite last_file_dir_of_nil. vm_compute in Hhist. by injection Hhist as <-. }
  clear IHsegs0. rewrite length_app in Hn. cbn [length] in Hn.
  rewrite last_file_dir_of by (rewrite length_app; simpl; lia).
  rewrite length_app. cbn [length].
  replace (length segs0 + 1 - 1)%nat with (length segs0) by lia.
  apply Forall_app in Hok as [_ Hf]. apply Forall_inv in Hf.
  unfold resolver_try.
  rewrite (fs_read_csv_seg_ok ncols _ _ f0)
    by (done || by rewrite lookup_dir_of, list_lookup_middle).
  destruct Hf as (h & l & body & -> & Hcells & Hncols & _).
  apply history_snoc in Hhist as (ta & tsf & t0 & -> & _ & Hlines).
  unfold df_empty. cbn [df_columns df_index tail].
  rewrite bool_decide_eq_false_2 by done.
  rewrite bool_decide_eq_false_2 by done. cbn [orb].
  unfold parsed_index. rewrite (to_datetime_strict_lines _ _ Hlines), dropna_Some.
  apply StronglySorted_app_1_r in Hinc.
  rewrite last_sorted_increasing by done.
  rewrite last_app. by destruct (last (t0 :: tsf)) eqn:Hl; [|apply last_None in Hl].
Qed.

(** The first target on up to ten segments: the last segment, or the
    next ordinal. *)
Lemma initial_target_dir_of segs :
  (length segs <= 10)%nat ->
  exists i, initial_target (dir_of segs) = data_filename i
            /\ (i <= length segs)%nat /\ (length segs <= S i)%nat.
Proof.
  intros Hn. unfold initial_target. rewrite next_available_dir_of.
  destruct (decide (segs = [])) as [->|Hne].
  { rewrite last_file_dir_of_nil. exists O. simpl. split; [done|lia]. }
  assert (1 <= length segs)%nat by (destruct segs; [done|simpl; lia]).
  rewrite last_file_dir_of by lia. unfold Os.getsize. rewrite lookup_dir_of.
  destruct (segs !! (length segs - 1)%nat) as [f|] eqn:Hf.
  - cbn [fmap option_fmap option_map]. destruct (_ <=? _).
    + exists (length segs). split; [done|lia].
    + exists (length segs - 1)%nat. split; [done|lia].
  - exists (length segs). split; [done|lia].
Qed.

(** ** A run keeps the history increasing *)

Lemma increasing_of_sorted_NoDup (rs : list row) :
  StronglySorted ts_le rs -> NoDup (map ts rs) -> increasing (map ts rs).
Proof.
  induction 1 as [|r rs Hs IH Hr]; cbn [map]; intros Hnd; [constructor|].
  apply NoDup_cons in Hnd as [Hni Hnd]. constructor; [by apply IH|].
  apply Forall_forall. intros t Ht.
  change (map ts rs) with (ts <$> rs) in *.
  apply list_elem_of_fmap in Ht as (x & -> & Hx).
  rewrite Forall_forall in Hr. specialize (Hr x Hx).
  unfold ts_le in Hr.
  assert (ts r <> ts x); [|lia].
  intros Heq. apply Hni. rewrite Heq. by apply list_elem_of_fmap_2.
Qed.

Lemma reconcile_rows ncols latest data :
  fetched_ok ncols data ->
  let rs := rows (reconcile latest data) in
  increasing (map ts rs)
  /\ Forall (fun r => resumable (ts r) /\ length (cells r) = ncols) rs
  /\ forall point, latest = Some point -> Forall (fun r => point < ts r) rs.
Proof.
  intros (_ & Hlen & Hnd & Hws) rs.
  destruct (reconcile_sorted_filter latest data) as (_ & _ & _ & Hsorted & Hperm).
  fold rs in Hsorted, Hperm.
  assert (Hsub : forall r, r ∈ rs -> r ∈ rows data
                            /\ forall point, latest = Some point -> point < ts r).
  { intros r Hr. rewrite Hperm in Hr. destruct latest as [point|].
    - apply list_elem_of_filter in Hr as [Hp Hr]. split; [done|]. by intros ? [= <-].
    - done. }
  split; [|split].
  - apply increasing_of_sorted_NoDup; [done|].
    change (map ts ?l) with (ts <$> l) in *. rewrite Hperm.
    destruct latest as [point|]; [|done].
    apply (sublist_NoDup _ (ts <$> rows data)); [done|apply fmap_sublist, sublist_filter].
  - apply Forall_forall. intros r Hr. rewrite Forall_forall in Hws, Hlen.
    apply Hsub in Hr as [Hr _]. auto.
  - intros point Hl. apply Forall_forall. intros r Hr. by apply Hsub.
Qed.

Lemma dir_of_inj segs segs' : dir_of segs = dir_of segs' -> segs = segs'.
Proof.
  intros H. apply list_eq. intros n. by rewrite <- !lookup_dir_of, H.
Qed.

(** C2, as stated, fails: rows of one batch are not compared with each
    other, so a batch that repeats a timestamp is stored with the repeat. *)
Lemma repeated_timestamp_is_stored :
  ~ (forall yf lenient stock_type ticker w w',
       monotonic (default ∅ (store w !! ticker_dir_of stock_type ticker)) ->
       download_and_store_data yf lenient stock_type ticker w = Returned w' ->
       monotonic (default ∅ (store w' !! ticker_dir_of stock_type ticker))).
Proof.
  intros H.
  pose (yf := fun (_ : string) (_ _ : Z) =>
                Fetched (sample_frame [sample_row 0; sample_row 0])).
  pose (w := World ∅ (ts (sample_row 5)) []).
  pose (w' := World {[ ticker_dir_of "tech" "AAPL" :=
                         dir_of [[sample_header; row_line (sample_row 0);
                                  row_line (sample_row 0)]] ]}
                    (ts (sample_row 5))
                    [("AAPL", ts (sample_row 5) - DOWNLOAD_PERIOD_DAYS * one_day,
                      ts (sample_row 5))]).
  destruct (H yf (fun _ => []) "tech" "AAPL" w w') as (segs & tss & Hd & Hh & Hinc).
  - exists [], []. repeat split. constructor.
  - vm_compute. reflexivity.
  - assert (Hd' : dir_of [[sample_header; row_line (sample_row 0); row_line (sample_row 0)]]
                  = dir_of segs).
    { rewrite <- Hd. vm_compute. reflexivity. }
    apply dir_of_inj in Hd'. subst segs. vm_compute in Hh. injection Hh as <-.
    inversion Hinc as [|? ? _ Hall]. inversion Hall as [|? ? Hlt _]. lia.
Qed.

(** Why the segments of C2 must be as the writer leaves them: a data line
    with more fields than the lines before it makes [read_csv] raise, the
    Resolver answers "none" although a bar is stored, and the run stores the
    bar the provider returns again. *)
Example wide_row_refetches_stored_bar :
  let wide := Line (Pd.strftime_csv (ts (sample_row 1)))
                   ["101.5"; "102.0"; "101.0"; "101.25"; "5000"; "extra"] in
  let f := [sample_header; row_line (sample_row 0); wide] in
  let yf := fun (_ : string) (_ _ : Z) => Fetched (sample_frame [sample_row 0]) in
  let w := World {[ ticker_dir_of "tech" "AAPL" := dir_of [f] ]} (ts (sample_row 5)) [] in
  fs_read_csv (dir_of [f]) "data_0.csv" = Err OtherException
  /\ resolve (fun _ => []) (dir_of [f]) = Returned None
  /\ exists w',
       download_and_store_data yf (fun _ => []) "tech" "AAPL" w = Returned w'
       /\ store w' !! ticker_dir_of "tech" "AAPL"
          = Some (dir_of [f ++ [row_line (sample_row 0)]]).
Proof.
  cbv zeta. split; [vm_compute; reflexivity|]. split; [vm_compute; reflexivity|].
  eexists. split; vm_compute; reflexivity.
Qed.

Section Monotonic.

Variable yf_download : string -> Z -> Z -> fetch_result.
Variable lenient : list string -> list (option Z).

(** C2, amended. Take a ticker directory whose path has no pattern
    character for [glob], holding a Ticker Directory of at most ten segments
    as the writer leaves them for frames of [ncols] columns (a header naming
    the columns, then at least one row, each with one cell per column and a
    timestamp in the on-disk format that is a whole second at least a minute
    below the upper bound of [Timestamp]), whose stored timestamps increase
    strictly; and a provider whose frames have these [ncols] columns, one
    cell per column in every row, and pairwise distinct timestamps of that
    kind.  Then the run returns and leaves a Ticker Directory of such
    segments whose stored timestamps increase strictly and begin with the
    ones stored before. *)
Theorem run_keeps_history_increasing stock_type ticker w ncols segs tss :
  let ticker_dir := ticker_dir_of stock_type ticker in
  Os.has_magic ticker_dir = false ->
  default ∅ (store w !! ticker_dir) = dir_of segs ->
  Forall (seg_ok ncols) segs -> (length segs <= 10)%nat ->
  history segs = Some tss -> increasing tss ->
  (forall start_date end_date data,
     yf_download ticker start_date end_date = Fetched data -> fetched_ok ncols data) ->
  exists w' segs' new,
    download_and_store_data yf_download lenient stock_type ticker w = Returned w'
    /\ store w' !! ticker_dir = Some (dir_of segs')
    /\ Forall (seg_ok ncols) segs'
    /\ history segs' = Some (tss ++ new)
    /\ increasing (tss ++ new).
Proof.
  intros ticker_dir _ Hd Hok Hn Hhist Hinc Hfetch.
  unfold download_and_store_data. cbn [store clock calls]. fold ticker_dir.
  rewrite makedirs_lookup. change (default ∅ (Some ?x)) with x.
  rewrite Hd, (resolve_dir_of lenient ncols segs tss) by done.
  assert (Hsame : forall c, exists w' segs' new,
            Returned (World (Os.makedirs ticker_dir (store w)) (clock w) c) = Returned w'
            /\ store w' !! ticker_dir = Some (dir_of segs')
            /\ Forall (seg_ok ncols) segs' /\ history segs' = Some (tss ++ new)
            /\ increasing (tss ++ new)).
  { intros c. eexists _, segs, []. split; [reflexivity|]. cbn [store].
    rewrite makedirs_lookup, Hd, app_nil_r. done. }
  destruct (_ && _); [apply Hsame|].
  destruct (yf_download _ _ _) as [|data] eqn:Hyf; [apply Hsame|].
  apply Hfetch in Hyf.
  destruct (frame_empty data); [apply Hsame|].
  destruct (reconcile_rows ncols (last tss) data Hyf) as (Hnew & Hws & Hafter).
  destruct (frame_empty (reconcile (last tss) data)) eqn:Hempty; [apply Hsame|].
  destruct (reconcile_sorted_filter (last tss) data) as (_ & _ & Hcolumns & _).
  set (data' := reconcile (last tss) data) in *.
  assert (Hcols : length (data_cells (header_line data')) = ncols).
  { cbn [header_line data_cells]. rewrite Hcolumns. apply Hyf. }
  assert (Hncols : ncols <> O).
  { unfold frame_empty in Hempty. apply orb_false_iff in Hempty as [Hc _].
    apply bool_decide_eq_false in Hc. cbn [header_line data_cells] in Hcols.
    destruct (columns data'); [done|]. simpl in Hcols. lia. }
  unfold segment_writer.
  destruct (initial_target_dir_of segs Hn) as (i & -> & Hi & Hlast).
  destruct (write_loop_dir_of (header_line data') (length (rows data')) (rows data')
              segs i ltac:(done) Hi Hlast)
    as (segs' & target' & -> & Hstored & _ & _ & Hok').
  exists (World (<[ticker_dir := dir_of segs']> (Os.makedirs ticker_dir (store w))) (clock w)
            ((ticker,
              match last tss with
              | Some latest => latest + one_minute
              | None => clock w - DOWNLOAD_PERIOD_DAYS * one_day
              end, clock w) :: calls w)),
    segs', (map ts (rows data')).
  split; [reflexivity|]. cbn [store w_dir].
  split; [apply lookup_insert_eq|]. split; [by apply Hok'|].
  split.
  { unfold history. rewrite Hstored. apply line_timestamps_app; [done|].
    apply line_timestamps_rows. eapply Forall_impl; [exact Hws|]. by intros r [[? _] _]. }
  apply StronglySorted_app_2; [|done..].
  intros x1 x2 Hx1 Hx2.
  destruct (last tss) as [m|] eqn:Hlastt.
  - pose proof (increasing_last_max tss m Hinc Hlastt x1 Hx1) as Hle.
    specialize (Hafter m eq_refl). rewrite Forall_forall in Hafter.
    change (map ts ?l) with (ts <$> l) in Hx2.
    apply list_elem_of_fmap in Hx2 as (r & -> & Hr).
    specialize (Hafter r Hr). lia.
  - apply last_None in Hlastt. subst. by apply elem_of_nil in Hx1.
Qed.

End Monotonic.

Lemma run_keeps_history_increasing_witness :
  let yf := fun (_ : string) (_ _ : Z) =>
              Fetched (sample_frame [sample_row 2; sample_row 1]) in
  let w := World {[ ticker_dir_of "tech" "AAPL" := dir_of [sample_segment 0] ]}
                 (ts (sample_row 5)) [] in
  exists w' segs' new,
    download_and_store_data yf (fun _ => []) "tech" "AAPL" w = Returned w'
    /\ store w' !! ticker_dir_of "tech" "AAPL" = Some (dir_of segs')
    /\ Forall (seg_ok 5) segs'
    /\ history segs' = Some ([ts (sample_row 0)] ++ new)
    /\ increasing ([ts (sample_row 0)] ++ new).
Proof.
  apply (run_keeps_history_increasing
           (fun (_ : string) (_ _ : Z) => Fetched (sample_frame [sample_row 2; sample_row 1]))
           (fun _ => []) "tech" "AAPL"
           (World {[ ticker_dir_of "tech" "AAPL" := dir_of [sample_segment 0] ]}
                  (ts (sample_row 5)) [])
           5%nat [sample_segment 0] [ts (sample_row 0)]).
  - vm_compute. reflexivity.
  - vm_compute. reflexivity.
  - apply Forall_singleton. eexists _, _, _. split; [reflexivity|].
    split; [reflexivity|]. split; [discriminate|].
    apply Forall_singleton. split; [reflexivity|].
    exists (ts (sample_row 0)). split; [|vm_compute; reflexivity].
    split; [split|]; vm_compute; [split; congruence|reflexivity|congruence].
  - simpl. lia.
  - vm_compute. reflexivity.
  - repeat constructor.
  - intros start_date end_date data [= <-]. split; [reflexivity|]. split.
    { repeat constructor. }
    split.
    + apply (bool_decide_unpack _). vm_compute. exact I.
    + repeat constructor; vm_compute; congruence.
Defined.

(** * Further properties of the code *)

(** ** get_next_available_filename on any directory *)

#[local] Instance data_filename_Inj : Inj (=) (=) data_filename.
Proof. intros i j. apply data_filename_inj. Qed.

(** A directory that holds [data_0 .. data_(i-1)] has at least [i] files. *)
Lemma ordinals_below_size (d : gmap string file) i :
  (forall j, (j < i)%nat -> is_Some (d !! data_filename j)) -> (i <= size d)%nat.
Proof.
  intros Hall.
  assert (Hsub : list_to_set (C := gset string) (data_filename <$> seq 0 i) ⊆ dom d).
  { intros x. rewrite elem_of_list_to_set, list_elem_of_fmap.
    intros (j & -> & Hj%elem_of_seq). apply elem_of_dom, Hall. lia. }
  apply subseteq_size in Hsub. rewrite size_dom in Hsub.
  rewrite size_list_to_set in Hsub by (apply NoDup_fmap_2; [apply _|apply NoDup_seq]).
  by rewrite length_fmap, length_seq in Hsub.
Qed.

Lemma next_available_from_least (d : gmap string file) : forall probes i,
  (i + probes = size d)%nat ->
  (forall j, (j < i)%nat -> is_Some (d !! data_filename j)) ->
  exists k,
    next_available_from probes i d = data_filename k
    /\ d !! data_filename k = None
    /\ forall j, (j < k)%nat -> is_Some (d !! data_filename j).
Proof.
  induction probes as [|p IH]; intros i Hsize Hbelow; cbn [next_available_from].
  - exists i. split; [done|]. split; [|done].
    destruct (d !! data_filename i) as [f|] eqn:Hf; [|done].
    assert (S i <= size d)%nat; [|lia].
    apply ordinals_below_size. intros j Hj.
    destruct (decide (j = i)) as [->|]; [eauto|]. apply Hbelow. lia.
  - unfold Os.path_exists. case_bool_decide as Hex.
    + apply IH; [lia|]. intros j Hj.
      destruct (decide (j = i)) as [->|]; [done|]. apply Hbelow. lia.
    + exists i. split; [done|]. split; [|done].
      by apply eq_None_not_Some.
Qed.

Lemma next_available_free (d : gmap string file) :
  exists name, get_next_available_filename d = name /\ d !! name = None.
Proof.
  unfold get_next_available_filename.
  destruct (next_available_from_least d (size d) 0 ltac:(done)) as (k & -> & Hk & _).
  - intros j Hj. lia.
  - eauto.
Qed.

(** X1. On any directory, [get_next_available_filename] returns
    [data_<i>.csv] for the least ordinal [i] whose file does not exist:
    that name is free and every lower ordinal is taken. *)
Theorem next_available_is_least_free (d : gmap string file) :
  exists i,
    get_next_available_filename d = data_filename i
    /\ d !! data_filename i = None
    /\ forall j, (j < i)%nat -> is_Some (d !! data_filename j).
Proof.
  unfold get_next_available_filename.
  apply next_available_from_least; [done|]. intros j Hj. lia.
Qed.

(** ** The writer on any directory *)

Lemma current_size_missing (d : gmap string file) target :
  d !! target = None -> current_size d target = 0.
Proof.
  intros H. unfold current_size, Os.path_exists.
  by rewrite bool_decide_eq_false_2 by (rewrite H; intros [? ?]; done).
Qed.

Lemma header_due_missing (d : gmap string file) target :
  d !! target = None -> header_due d target = true.
Proof.
  intros H. unfold header_due, Os.path_exists.
  by rewrite bool_decide_eq_false_2 by (rewrite H; intros [? ?]; done).
Qed.

(** One iteration on any directory: one [to_csv] of a non-empty chunk to
    a file whose size, by the estimate of 150 bytes a row, stays within the
    cap, with a header exactly when that file is missing or empty. *)
Lemma write_step_any (d : gmap string file) target hdr rows_to_write :
  rows_to_write <> [] ->
  exists name chunk rest target',
    write_step hdr (WState d target rows_to_write)
    = WState (to_csv d name (header_due d name) hdr chunk) target' rest
    /\ rows_to_write = chunk ++ rest /\ chunk <> []
    /\ current_size d name + Z.of_nat (length chunk) * estimated_bytes_per_row
       <= MAX_FILE_SIZE_BYTES.
Proof.
  intros Hne. unfold write_step, rollover. cbn [w_dir w_target w_rows].
  set (n_rows := Z.of_nat (length rows_to_write)).
  assert (Hn : 1 <= n_rows) by (subst n_rows; destruct rows_to_write; [done|simpl; lia]).
  pose proof (current_size_nonneg d target) as Hsize.
  destruct (next_available_free d) as (fresh & Hfresh & Hfree).
  assert (Hk0 : Z.to_nat num_rows_for_chunk <> O).
  { rewrite num_rows_for_chunk_value. lia. }
  assert (HkZ : Z.of_nat (Z.to_nat num_rows_for_chunk) = 314572).
  { rewrite num_rows_for_chunk_value. lia. }
  set (k := Z.to_nat num_rows_for_chunk) in *. clearbody k.
  assert (Hchunk : Z.of_nat (length (take k rows_to_write)) <= 314572).
  { rewrite length_take. lia. }
  assert (Htake : take k rows_to_write <> []).
  { destruct rows_to_write, k; done. }
  unfold MAX_FILE_SIZE_BYTES, MAX_FILE_SIZE_MB, estimated_bytes_per_row in *.
  destruct (Z.ltb_spec 0 (current_size d target)) as [Hpos|Hzero];
    [destruct (Z.ltb_spec (50 * 1024 * 1024) (current_size d target + n_rows * 150))
       as [Hover|Hfits]|]; cbn [andb].
  - (* rollover *)
    rewrite Hfresh, Z.eqb_refl, andb_true_r.
    rewrite <- (header_due_missing d fresh Hfree).
    destruct (Z.ltb_spec 1 n_rows), (Z.ltb_spec (50 * 1024 * 1024) (n_rows * 150)); cbn [andb].
    + eexists fresh, _, _, _. split; [reflexivity|].
      split; [by rewrite take_drop|]. split; [done|].
      rewrite current_size_missing by done. lia.
    + eexists fresh, _, [], _. split; [reflexivity|].
      split; [by rewrite app_nil_r|]. split; [done|].
      rewrite current_size_missing by done. fold n_rows. lia.
    + eexists fresh, _, [], _. split; [reflexivity|].
      split; [by rewrite app_nil_r|]. split; [done|].
      rewrite current_size_missing by done. fold n_rows. lia.
    + eexists fresh, _, [], _. split; [reflexivity|].
      split; [by rewrite app_nil_r|]. split; [done|].
      rewrite current_size_missing by done. fold n_rows. lia.
  - destruct (Z.eqb_spec (current_size d target) 0); [lia|]. rewrite andb_false_r.
    eexists target, _, [], _. split; [reflexivity|].
    split; [by rewrite app_nil_r|]. split; [done|]. fold n_rows. lia.
  - assert (Hz : current_size d target = 0) by lia.
    rewrite Hz, Z.eqb_refl, andb_true_r.
    destruct (Z.ltb_spec 1 n_rows), (Z.ltb_spec (50 * 1024 * 1024) (n_rows * 150)); cbn [andb].
    + eexists target, _, _, _. split; [reflexivity|].
      split; [by rewrite take_drop|]. split; [done|]. lia.
    + eexists target, _, [], _. split; [reflexivity|].
      split; [by rewrite app_nil_r|]. split; [done|]. fold n_rows. lia.
    + eexists target, _, [], _. split; [reflexivity|].
      split; [by rewrite app_nil_r|]. split; [done|]. fold n_rows. lia.
    + eexists target, _, [], _. split; [reflexivity|].
      split; [by rewrite app_nil_r|]. split; [done|]. fold n_rows. lia.
Qed.

Lemma extends_refl (d : gmap string file) : extends d d.
Proof. intros name f Hf. exists []. by rewrite app_nil_r. Qed.

Lemma extends_trans (d1 d2 d3 : gmap string file) :
  extends d1 d2 -> extends d2 d3 -> extends d1 d3.
Proof.
  intros H12 H23 name f Hf.
  destruct (H12 name f Hf) as [e1 H2]. destruct (H23 name _ H2) as [e2 H3].
  exists (e1 ++ e2). by rewrite app_assoc.
Qed.

Lemma to_csv_extends (d : gmap string file) target write_header hdr chunk :
  extends d (to_csv d target write_header hdr chunk).
Proof.
  intros name f Hf. unfold to_csv.
  destruct (decide (target = name)) as [->|Hne].
  - rewrite lookup_insert_eq, Hf. eauto.
  - rewrite lookup_insert_ne by done. exists []. by rewrite app_nil_r.
Qed.

Lemma write_loop_any hdr : forall fuel rows_to_write (d : gmap string file) target,
  (length rows_to_write <= fuel)%nat ->
  let st' := write_loop fuel hdr (WState d target rows_to_write) in
  w_rows st' = [] /\ extends d (w_dir st').
Proof.
  induction fuel as [|fuel IH]; intros rows d target Hfuel.
  { destruct rows; [|simpl in Hfuel; lia]. split; [done|apply extends_refl]. }
  destruct rows as [|r rows]; [split; [done|apply extends_refl]|].
  cbn [write_loop w_rows].
  destruct (write_step_any d target hdr (r :: rows) ltac:(done))
    as (name & chunk & rest & target' & -> & Hrows & Hchunk & _).
  assert (Hshort : (length rest <= fuel)%nat).
  { apply (f_equal length) in Hrows. rewrite length_app in Hrows.
    destruct chunk; [done|]. simpl in *. lia. }
  destruct (IH rest (to_csv d name (header_due d name) hdr chunk) target' Hshort)
    as [Hdone Hext].
  split; [done|]. eapply extends_trans; [apply to_csv_extends|done].
Qed.

(** X2. On any directory and for any batch, the write loop of
    [download_and_store_data] ends: within as many iterations as the batch
    has rows no row is left to write. *)
Theorem segment_writer_places_all_rows (d : gmap string file) (data : frame) :
  w_rows (segment_writer d data) = [].
Proof. unfold segment_writer. by apply write_loop_any. Qed.

(** X3. The writer only appends: on any directory, every file that
    existed before the write exists afterwards and begins with the lines it
    had; no file is removed, truncated or rewritten. *)
Theorem segment_writer_only_appends (d : gmap string file) (data : frame) :
  extends d (w_dir (segment_writer d data)).
Proof. unfold segment_writer. by apply write_loop_any. Qed.

(** X4. Every iteration of the write loop, on any directory, makes one
    append of a non-empty chunk, and keeps the written file within the cap
    by the estimate the code uses: the size of the file before the append
    plus 150 bytes for each row of the chunk is at most
    [MAX_FILE_SIZE_BYTES]. *)
Theorem write_step_within_estimated_cap
    (d : gmap string file) target hdr rows_to_write :
  rows_to_write <> [] ->
  exists name chunk,
    w_dir (write_step hdr (WState d target rows_to_write))
    = to_csv d name (header_due d name) hdr chunk
    /\ chunk <> []
    /\ rows_to_write = chunk ++ w_rows (write_step hdr (WState d target rows_to_write))
    /\ current_size d name + Z.of_nat (length chunk) * estimated_bytes_per_row
       <= MAX_FILE_SIZE_BYTES.
Proof.
  intros Hne.
  destruct (write_step_any d target hdr rows_to_write Hne)
    as (name & chunk & rest & target' & -> & Hrows & Hchunk & Hcap).
  exists name, chunk. done.
Qed.

Lemma write_step_within_estimated_cap_witness :
  let d := dir_of [sample_segment 0] in
  let rows_to_write := [sample_row 1; sample_row 2] in
  exists name chunk,
    w_dir (write_step sample_header (WState d (data_filename 0) rows_to_write))
    = to_csv d name (header_due d name) sample_header chunk
    /\ chunk <> []
    /\ rows_to_write
       = chunk ++ w_rows (write_step sample_header (WState d (data_filename 0) rows_to_write))
    /\ current_size d name + Z.of_nat (length chunk) * estimated_bytes_per_row
       <= MAX_FILE_SIZE_BYTES.
Proof.
  apply (write_step_within_estimated_cap (dir_of [sample_segment 0]) (data_filename 0)
           sample_header [sample_row 1; sample_row 2]).
  discriminate.
Defined.

(** ** download_and_store_data on any world *)

Section RunFacts.

Variable yf_download : string -> Z -> Z -> fetch_result.
Variable lenient : list string -> list (option Z).

Lemma run_cases stock_type ticker w :
  let ticker_dir := ticker_dir_of stock_type ticker in
  let d := default ∅ (store w !! ticker_dir) in
  let st := Os.makedirs ticker_dir (store w) in
  exists latest,
    resolve lenient d = Returned latest
    /\ download_and_store_data yf_download lenient stock_type ticker w
       = if up_to_date latest (clock w) then Returned (World st (clock w) (calls w))
         else
           let cs := (ticker, start_of latest (clock w), clock w) :: calls w in
           match yf_download ticker (start_of latest (clock w)) (clock w) with
           | FetchRaised => Returned (World st (clock w) cs)
           | Fetched data =>
               if frame_empty data || frame_empty (reconcile latest data)
               then Returned (World st (clock w) cs)
               else Returned (World
                      (<[ticker_dir := w_dir (segment_writer d (reconcile latest data))]> st)
                      (clock w) cs)
           end.
Proof.
  intros ticker_dir d st. destruct (resolve_returns lenient d) as [latest Hres].
  exists latest. split; [done|].
  unfold download_and_store_data. cbn [store clock calls]. fold ticker_dir.
  rewrite makedirs_lookup. change (default ∅ (Some ?x)) with x.
  fold d st. rewrite Hres. unfold up_to_date, start_of.
  destruct (_ && _); [done|]. cbv zeta.
  destruct (yf_download _ _ _); [done|].
  destruct (frame_empty data); [done|]. cbn [orb].
  by destruct (frame_empty _).
Qed.


Lemma reconcile_stale_rows l data :
  Forall (fun r => ts r <= l) (rows data) ->
  rows (reconcile (Some l) data) = [].
Proof.
  intros Hstale.
  destruct (reconcile_sorted_filter (Some l) data) as (_ & _ & _ & _ & Hperm).
  destruct (rows (reconcile (Some l) data)) as [|r rs]; [done|].
  assert (Hr : r ∈ filter (fun r => l < ts r) (rows data)).
  { rewrite <- Hperm. by left. }
  apply list_elem_of_filter in Hr as [Hlt Hr].
  rewrite Forall_forall in Hstale. specialize (Hstale r Hr). simpl in *. lia.
Qed.


End RunFacts.


(** ** The first run for a ticker *)

Lemma resolve_empty lenient : resolve lenient ∅ = Returned None.
Proof. reflexivity. Qed.

Lemma segment_writer_empty_dir data :
  rows data <> [] ->
  Z.of_nat (length (rows data)) * estimated_bytes_per_row <= MAX_FILE_SIZE_BYTES ->
  w_dir (segment_writer ∅ data)
  = {[ data_filename 0 := header_line data :: map row_line (rows data) ]}.
Proof.
  intros Hne Hfits. unfold segment_writer.
  change (initial_target ∅) with (data_filename 0).
  destruct (rows data) as [|r rs] eqn:Hrows; [done|].
  cbn [length write_loop w_rows]. rewrite <- Hrows in *.
  unfold write_step, rollover. cbn [w_dir w_target w_rows].
  rewrite current_size_missing, header_due_missing by apply lookup_empty.
  cbn [Z.ltb Z.compare andb].
  destruct (Z.ltb_spec MAX_FILE_SIZE_BYTES
              (Z.of_nat (length (rows data)) * estimated_bytes_per_row)); [lia|].
  rewrite andb_false_r. cbn [andb].
  rewrite write_loop_nil. cbn [w_dir]. unfold to_csv.
  by rewrite lookup_empty.
Qed.

Section FirstRun.

Variable yf_download : string -> Z -> Z -> fetch_result.
Variable lenient : list string -> list (option Z).


End FirstRun.


(** ** What the Resolver looks at *)

(** X9. The Resolver reads one file only: two Ticker Directories of up to
    ten segments with the same number of segments and the same last segment
    get the same answer, whatever the earlier segments hold. *)
Theorem resolver_reads_only_last_segment
    (lenient : list string -> list (option Z)) (init init' : list file) (f : file) :
  length init = length init' -> (length init <= 9)%nat ->
  resolve lenient (dir_of (init ++ [f])) = resolve lenient (dir_of (init' ++ [f])).
Proof.
  intros Hlen Hn. unfold resolve, get_latest_timestamp_from_dir.
  rewrite !last_file_dir_of by (rewrite length_app; simpl; lia).
  rewrite !length_app, <- Hlen. cbn [length].
  replace (length init + 1 - 1)%nat with (length init) by lia.
  unfold resolver_try, fs_read_csv. rewrite !lookup_dir_of.
  rewrite list_lookup_middle by done. by rewrite list_lookup_middle by done.
Qed.

Lemma resolver_reads_only_last_segment_witness :
  resolve (fun _ => []) (dir_of ([sample_segment 0] ++ [sample_segment 7]))
  = resolve (fun _ => []) (dir_of ([[]] ++ [sample_segment 7])).
Proof.
  apply (resolver_reads_only_last_segment (fun _ => []) [sample_segment 0] [[]]
           (sample_segment 7)).
  - reflexivity.
  - simpl. lia.
Defined.

(** ** The round trip below the second *)

(** X10. Writing a timestamp and reading it back with the strict format
    gives the start of its second: the nanoseconds within the second are
    dropped and nothing else changes. *)
Theorem roundtrip_truncates_to_second t :
  Pd.TS_MIN <= t - t mod Pd.NS_PER_SEC -> t <= Pd.TS_MAX ->
  Pd.strptime_csv (Pd.strftime_csv t) = Some (t - t mod Pd.NS_PER_SEC).
Proof.
  intros Hlo Hhi.
  assert (Ht : t / Pd.NS_PER_SEC * Pd.NS_PER_SEC = t - t mod Pd.NS_PER_SEC).
  { unfold Pd.NS_PER_SEC. clear. div_lia. }
  rewrite <- Ht in *. by apply strptime_strftime_seconds.
Qed.

Lemma roundtrip_truncates_to_second_witness :
  Pd.strptime_csv (Pd.strftime_csv 1717430340123456789)
  = Some (1717430340123456789 - 1717430340123456789 mod Pd.NS_PER_SEC).
Proof.
  apply (roundtrip_truncates_to_second 1717430340123456789).
  - vm_compute. discriminate.
  - vm_compute. discriminate.
Defined.

(** ** More on parse_config *)

Lemma split1_None sep s : (Py.split1 sep s).2 = None <-> has_char sep s = false.
Proof.
  induction s as [|c s IH]; cbn [Py.split1 has_char]; [done|].
  case_bool_decide; cbn [orb snd]; [done|].
  by destruct (Py.split1 sep s) as [a b].
Qed.

Lemma line_entry_skipped raw : line_entry raw = None <-> skipped_line raw = true.
Proof.
  unfold line_entry, skipped_line, config_entry.
  destruct (bool_decide _ || Py.startswith _ _); [done|]. cbn [orb].
  pose proof (split1_None ":" (Py.strip raw)) as Hs.
  destruct (Py.split1 ":" (Py.strip raw)) as [a [b|]]; cbn [snd] in Hs.
  - destruct (has_char ":" (Py.strip raw)); [done|]. by destruct Hs as [_ Hs]; discriminate Hs.
  - destruct Hs as [Hs _]. by rewrite Hs.
Qed.

Lemma parse_config_fold_filter lines : forall config,
  fold_left parse_config_line (filter (fun l => skipped_line l = false) lines) config
  = fold_left parse_config_line lines config.
Proof.
  induction lines as [|l lines IH]; intros config; [done|].
  rewrite filter_cons. cbn [fold_left]. case_decide as Hl.
  - cbn [fold_left]. apply IH.
  - rewrite IH. f_equal. rewrite parse_config_line_entry.
    apply not_false_is_true in Hl. apply line_entry_skipped in Hl. by rewrite Hl.
Qed.

(** X11. Lines that are blank once stripped, lines that start with [#]
    and lines without a colon contribute nothing: removing all of them from
    the file leaves the parsed configuration unchanged. *)
Theorem parse_config_skips_blank_comment_malformed lines :
  parse_config_lines (filter (fun l => skipped_line l = false) lines)
  = parse_config_lines lines.
Proof. apply parse_config_fold_filter. Qed.

Lemma parse_config_fold_keys lines : forall config k,
  k ∈ (fold_left parse_config_line lines config).*1
  <-> k ∈ config.*1 \/ exists l t, l ∈ lines /\ line_entry l = Some (k, t).
Proof.
  induction lines as [|l lines IH]; intros config k; cbn [fold_left].
  - split; [by left|]. intros [?|(l & t & Hl & _)]; [done|]. by apply elem_of_nil in Hl.
  - rewrite IH, parse_config_line_entry. split.
    + intros [Hk|(l' & t & Hl' & He)].
      * destruct (line_entry l) as [[g t]|] eqn:Hl; [|by left].
        apply dict_set_keys_in in Hk as [->|Hk]; [|by left].
        right. exists l, t. split; [by left|done].
      * right. exists l', t. split; [by right|done].
    + intros [Hk|(l' & t & Hl' & He)].
      * left. destruct (line_entry l) as [[g t]|]; [|done].
        apply dict_set_keys_in. by right.
      * apply elem_of_cons in Hl' as [->|Hl'].
        -- left. rewrite He. apply dict_set_keys_in. by left.
        -- right. eauto.
Qed.

(** X12. The parsed configuration has each group label once, and its
    labels are exactly the labels of the lines that are not passed over. *)
Theorem parse_config_keys lines :
  NoDup (parse_config_lines lines).*1
  /\ forall k, k ∈ (parse_config_lines lines).*1
               <-> exists l t, l ∈ lines /\ line_entry l = Some (k, t).
Proof.
  split.
  - apply parse_config_fold_NoDup. constructor.
  - intros k. unfold parse_config_lines. rewrite parse_config_fold_keys.
    split; [|by right]. intros [Hk|?]; [|done]. by apply elem_of_nil in Hk.
Qed.

(** ** Stripping *)

Lemma lstrip_head s :
  match Py.lstrip s with
  | EmptyString => True
  | String c _ => Py.isspace c = false
  end.
Proof.
  induction s as [|c s IH]; cbn [Py.lstrip]; [done|].
  destruct (Py.isspace c) eqn:Hc; [done|]. done.
Qed.

Lemma lstrip_fixed c s : Py.isspace c = false -> Py.lstrip (String c s) = String c s.
Proof. intros Hc. cbn [Py.lstrip]. by rewrite Hc. Qed.

Lemma rstrip_idem s : Py.rstrip (Py.rstrip s) = Py.rstrip s.
Proof.
  induction s as [|c s IH]; [done|]. cbn [Py.rstrip].
  destruct (Py.rstrip s) as [|c' r] eqn:Hr.
  - destruct (Py.isspace c) eqn:Hc; [done|]. cbn [Py.rstrip]. by rewrite Hc.
  - cbn [Py.rstrip] in *. by rewrite IH.
Qed.

Lemma rstrip_head c s :
  Py.isspace c = false -> exists r, Py.rstrip (String c s) = String c r.
Proof.
  intros Hc. cbn [Py.rstrip]. destruct (Py.rstrip s); rewrite ?Hc; eauto.
Qed.

Lemma strip_idem s : Py.strip (Py.strip s) = Py.strip s.
Proof.
  unfold Py.strip. pose proof (lstrip_head s) as Hh.
  destruct (Py.lstrip s) as [|c x]; [done|].
  destruct (rstrip_head c x Hh) as [r Hr]. rewrite Hr.
  rewrite lstrip_fixed by done. by rewrite <- Hr, rstrip_idem.
Qed.

Lemma split_nonempty sep s : Py.split sep s <> [].
Proof.
  destruct s as [|c s]; cbn [Py.split]; [done|].
  case_bool_decide; [done|]. by destruct (Py.split sep s).
Qed.

Lemma split1_nothing_after sep label :
  has_char sep label = false ->
  Py.split1 sep (label +:+ String sep EmptyString) = (label, Some EmptyString).
Proof.
  induction label as [|c label IH]; intros H; simpl in *.
  - by rewrite bool_decide_eq_true_2.
  - apply orb_false_iff in H as [Hc Hl]. by rewrite Hc, IH.
Qed.

(** X13. Every entry [parse_config] takes from a line has a label and
    tickers free of surrounding whitespace, and at least one ticker; a line
    that, once stripped, ends at its first colon gives the single ticker
    [""]. *)
Theorem line_entry_is_stripped raw g tickers :
  line_entry raw = Some (g, tickers) ->
  Py.strip g = g
  /\ tickers <> []
  /\ Forall (fun t => Py.strip t = t) tickers
  /\ forall label,
       Py.strip raw = label +:+ ":" -> has_char ":" label = false ->
       g = Py.strip label /\ tickers = [""].
Proof.
  unfold line_entry, config_entry.
  destruct (_ || _); [done|].
  destruct (Py.split1 ":" (Py.strip raw)) as [a [b|]] eqn:Hsplit; [|done].
  intros [= <- <-]. split; [apply strip_idem|]. split; [|split].
  - pose proof (split_nonempty "," b). by destruct (Py.split "," b).
  - apply Forall_forall. intros t Ht.
    change (map Py.strip ?l) with (Py.strip <$> l) in Ht.
    apply list_elem_of_fmap in Ht as (x & -> & _). apply strip_idem.
  - intros label Hraw Hlabel. rewrite Hraw, split1_nothing_after in Hsplit by done.
    by injection Hsplit as <- <-.
Qed.

Lemma line_entry_is_stripped_witness :
  Py.strip "fx" = "fx"
  /\ [""] <> []
  /\ Forall (fun t => Py.strip t = t) [""]
  /\ forall label,
       Py.strip "  fx :  " = label +:+ ":" -> has_char ":" label = false ->
       "fx" = Py.strip label /\ [""] = [""].
Proof.
  apply (line_entry_is_stripped "  fx :  " "fx" [""]).
  reflexivity.
Defined.

(** ** The writer on a Ticker Directory of up to ten segments *)

Lemma initial_target_value segs :
  (length segs <= 10)%nat ->
  initial_target (dir_of segs)
  = data_filename
      match last segs with
      | Some f => if MAX_FILE_SIZE_BYTES <=? file_bytes f then length segs
                  else (length segs - 1)%nat
      | None => O
      end.
Proof.
  intros Hn. unfold initial_target. rewrite next_available_dir_of.
  destruct segs as [|f0 segs0] using rev_ind.
  { by rewrite last_file_dir_of_nil. }
  clear IHsegs0. rewrite last_snoc. rewrite length_app in *. cbn [length] in *.
  rewrite last_file_dir_of by (rewrite length_app; simpl; lia).
  rewrite length_app. cbn [length]. unfold Os.getsize.
  rewrite lookup_dir_of.
  replace (length segs0 + 1 - 1)%nat with (length segs0) by lia.
  rewrite list_lookup_middle by done. cbn [fmap option_fmap option_map].
  by destruct (_ <=? _).
Qed.

(** X15. On a Ticker Directory of up to ten segments the writer leaves a
    Ticker Directory (ordinals without gap): the data lines stored before
    are followed by one line per row of the batch, in batch order, and every
    segment below the last one is left as it was; when the last segment has
    already reached the cap, it is left as it was too. *)
Theorem writer_extends_last_segment segs data :
  (length segs <= 10)%nat ->
  exists segs',
    w_dir (segment_writer (dir_of segs) data) = dir_of segs'
    /\ stored_lines segs' = stored_lines segs ++ map row_line (rows data)
    /\ take (length segs - 1) segs' = take (length segs - 1) segs
    /\ (forall f, last segs = Some f -> MAX_FILE_SIZE_BYTES <= file_bytes f ->
        take (length segs) segs' = segs).
Proof.
  intros Hn. unfold segment_writer. rewrite initial_target_value by done.
  set (i := match last segs with
            | Some f => if MAX_FILE_SIZE_BYTES <=? file_bytes f then length segs
                        else (length segs - 1)%nat
            | None => O
            end).
  assert (Hi : (i <= length segs)%nat /\ (length segs <= S i)%nat).
  { subst i. destruct (last segs) as [f|] eqn:Hl.
    - destruct (_ <=? _); lia.
    - apply last_None in Hl. subst. simpl. lia. }
  destruct (write_loop_dir_of (header_line data) (length (rows data)) (rows data)
              segs i ltac:(done) (proj1 Hi) (proj2 Hi))
    as (segs' & target' & -> & Hstored & Htake & _ & _).
  exists segs'. split; [done|]. split; [done|]. split.
  - replace (length segs - 1)%nat with ((length segs - 1) `min` i)%nat by lia.
    by rewrite <- !take_take, Htake.
  - intros f Hlast Hfull. subst i. rewrite Hlast in Htake.
    destruct (Z.leb_spec MAX_FILE_SIZE_BYTES (file_bytes f)); [|lia].
    by rewrite Htake, take_ge.
Qed.

Lemma writer_extends_last_segment_witness :
  exists segs',
    w_dir (segment_writer (dir_of [sample_segment 0]) (sample_frame [sample_row 1]))
    = dir_of segs'
    /\ stored_lines segs'
       = stored_lines [sample_segment 0] ++ map row_line (rows (sample_frame [sample_row 1]))
    /\ take (length [sample_segment 0] - 1) segs'
       = take (length [sample_segment 0] - 1) [sample_segment 0]
    /\ (forall f, last [sample_segment 0] = Some f -> MAX_FILE_SIZE_BYTES <= file_bytes f ->
        take (length [sample_segment 0]) segs' = [sample_segment 0]).
Proof.
  apply (writer_extends_last_segment [sample_segment 0] (sample_frame [sample_row 1])).
  simpl. lia.
Defined.

(** X16. On a Ticker Directory of up to ten segments whose last file is
    empty or holds a header only, the Resolver returns "none", whatever the
    earlier segments hold, so the next run asks for the whole lookback
    window again. *)
Theorem resolver_none_on_header_only_last_segment
    (lenient : list string -> list (option Z)) (init : list file) (f : file) :
  (length init <= 9)%nat -> (length f <= 1)%nat ->
  resolve lenient (dir_of (init ++ [f])) = Returned None.
Proof.
  intros Hn Hf. unfold resolve, get_latest_timestamp_from_dir.
  rewrite last_file_dir_of by (rewrite length_app; simpl; lia).
  rewrite length_app. cbn [length].
  replace (length init + 1 - 1)%nat with (length init) by lia.
  unfold resolver_try, fs_read_csv. rewrite lookup_dir_of, list_lookup_middle by done.
  destruct f as [|h [|l body]]; [done| |simpl in Hf; lia].
  cbn [map]. unfold df_empty. cbn [df_columns df_index].
  rewrite (bool_decide_eq_true_2 ([] = [])) by done. by rewrite orb_true_r.
Qed.

Lemma resolver_none_on_header_only_last_segment_witness :
  resolve (fun _ => []) (dir_of ([sample_segment 0] ++ [[sample_header]])) = Returned None.
Proof.
  apply (resolver_none_on_header_only_last_segment (fun _ => []) [sample_segment 0]
           [sample_header]); simpl; lia.
Defined.

(** ** Appending when the batch fits *)

(** X17. On any directory, when the target exists with nonzero size and
    that size plus the estimate of the batch stays within the cap, the
    iteration appends every row to the target, without a header, creates no
    file and leaves no row to write. *)
Theorem fitting_batch_is_appended (d : gmap string file) target f hdr rows_to_write :
  d !! target = Some f -> f <> [] ->
  file_bytes f + Z.of_nat (length rows_to_write) * estimated_bytes_per_row
    <= MAX_FILE_SIZE_BYTES ->
  write_step hdr (WState d target rows_to_write)
  = WState (<[target := f ++ map row_line rows_to_write]> d) target [].
Proof.
  intros Hf Hne Hfits.
  pose proof (file_bytes_pos f Hne) as Hpos.
  assert (Hsize : current_size d target = file_bytes f).
  { unfold current_size, Os.path_exists, Os.getsize. rewrite Hf.
    by rewrite bool_decide_eq_true_2 by eauto. }
  unfold write_step, rollover, header_due. cbn [w_dir w_target w_rows].
  rewrite Hsize. unfold Os.path_exists. rewrite Hf.
  rewrite bool_decide_eq_true_2 by eauto. cbn [negb orb].
  destruct (Z.ltb_spec 0 (file_bytes f)); [|lia].
  destruct (Z.ltb_spec MAX_FILE_SIZE_BYTES
              (file_bytes f + Z.of_nat (length rows_to_write) * estimated_bytes_per_row));
    [lia|].
  cbn [andb]. destruct (Z.eqb_spec (file_bytes f) 0); [lia|].
  rewrite andb_false_r. unfold to_csv. by rewrite Hf.
Qed.

Lemma fitting_batch_is_appended_witness :
  write_step sample_header
    (WState (dir_of [sample_segment 0]) (data_filename 0) [sample_row 1])
  = WState (<[data_filename 0 := sample_segment 0 ++ map row_line [sample_row 1]]>
              (dir_of [sample_segment 0]))
           (data_filename 0) [].
Proof.
  apply (fitting_batch_is_appended (dir_of [sample_segment 0]) (data_filename 0)
           (sample_segment 0) sample_header [sample_row 1]).
  - reflexivity.
  - discriminate.
  - vm_compute. discriminate.
Defined.

(** ** Ordinals of one and of two digits *)

Lemma data_filename_below_9 j :
  (j <= 89)%nat -> String.le (data_filename j) (data_filename 9).
Proof.
  intros Hj.
  assert (Hall : forallb (fun j => bool_decide (String.le (data_filename j) (data_filename 9)))
                   (seq 0 90) = true) by (vm_compute; reflexivity).
  rewrite forallb_forall in Hall.
  apply (bool_decide_unpack _). apply Is_true_true, (Hall j), in_seq. lia.
Qed.

(** X18. Up to ten segments, the last name in sorted order, which the
    Resolver reads and the Writer targets, is the segment of the highest
    ordinal; from eleven to ninety segments it is [data_9.csv], whatever
    the number of segments ([data_90.csv] is the first name to sort after
    it). *)
Theorem last_sorted_segment segs :
  (1 <= length segs <= 90)%nat ->
  last (sorted (Os.glob_csv (dir_of segs)))
  = Some (data_filename (if decide (length segs <= 10)%nat then length segs - 1 else 9)).
Proof.
  intros Hn. case_decide as Hten; [apply last_file_dir_of; lia|].
  apply last_sorted_max.
  - apply elem_of_glob_dir_of. exists 9%nat. split; [done|lia].
  - intros x [j [-> Hj]]%elem_of_glob_dir_of. apply data_filename_below_9. lia.
Qed.

Lemma last_sorted_segment_witness :
  last (sorted (Os.glob_csv (dir_of eleven_segments)))
  = Some (data_filename
            (if decide (length eleven_segments <= 10)%nat
             then length eleven_segments - 1 else 9)).
Proof. apply (last_sorted_segment eleven_segments). simpl. lia. Defined.
